(** * ThermoML archive pipeline: [data/thermoml_archive/transform.py]

    A shallow embedding of the download / verify / extract / convert /
    describe script, together with the SHA-256 object of [hashlib] that its
    checksum helper drives. *)

From Stdlib Require Import ZArith List String Ascii Lia DecimalString.
From Stdlib.Strings Require Import Byte.
From stdpp Require Import gmap strings list.

(** ** [hashlib.sha256]

    The hash object of the Python standard library: a running state that is
    created empty, fed with [update] and read with [hexdigest].  Words are
    32-bit integers kept in [Z] with the wrap-around written out. *)

Module hashlib.
Local Open Scope Z_scope.

Definition mask32 : Z := 0xFFFFFFFF.
Definition wrap32 (x : Z) : Z := Z.land x mask32.
Definition add32 (x y : Z) : Z := wrap32 (x + y).
Definition rotr (n x : Z) : Z :=
  wrap32 (Z.lor (Z.shiftr x n) (Z.shiftl x (32 - n))).
Definition shr (n x : Z) : Z := Z.shiftr x n.
Definition not32 (x : Z) : Z := Z.lxor x mask32.

Definition Ch (x y z : Z) : Z := Z.lxor (Z.land x y) (Z.land (not32 x) z).
Definition Maj (x y z : Z) : Z :=
  Z.lxor (Z.lxor (Z.land x y) (Z.land x z)) (Z.land y z).
Definition bsig0 (x : Z) : Z := Z.lxor (Z.lxor (rotr 2 x) (rotr 13 x)) (rotr 22 x).
Definition bsig1 (x : Z) : Z := Z.lxor (Z.lxor (rotr 6 x) (rotr 11 x)) (rotr 25 x).
Definition ssig0 (x : Z) : Z := Z.lxor (Z.lxor (rotr 7 x) (rotr 18 x)) (shr 3 x).
Definition ssig1 (x : Z) : Z := Z.lxor (Z.lxor (rotr 17 x) (rotr 19 x)) (shr 10 x).

(** The sixty-four round constants. *)
Definition round_constants : list Z :=
  0x428A2F98 :: 0x71374491 :: 0xB5C0FBCF :: 0xE9B5DBA5 ::
  0x3956C25B :: 0x59F111F1 :: 0x923F82A4 :: 0xAB1C5ED5 ::
  0xD807AA98 :: 0x12835B01 :: 0x243185BE :: 0x550C7DC3 ::
  0x72BE5D74 :: 0x80DEB1FE :: 0x9BDC06A7 :: 0xC19BF174 ::
  0xE49B69C1 :: 0xEFBE4786 :: 0x0FC19DC6 :: 0x240CA1CC ::
  0x2DE92C6F :: 0x4A7484AA :: 0x5CB0A9DC :: 0x76F988DA ::
  0x983E5152 :: 0xA831C66D :: 0xB00327C8 :: 0xBF597FC7 ::
  0xC6E00BF3 :: 0xD5A79147 :: 0x06CA6351 :: 0x14292967 ::
  0x27B70A85 :: 0x2E1B2138 :: 0x4D2C6DFC :: 0x53380D13 ::
  0x650A7354 :: 0x766A0ABB :: 0x81C2C92E :: 0x92722C85 ::
  0xA2BFE8A1 :: 0xA81A664B :: 0xC24B8B70 :: 0xC76C51A3 ::
  0xD192E819 :: 0xD6990624 :: 0xF40E3585 :: 0x106AA070 ::
  0x19A4C116 :: 0x1E376C08 :: 0x2748774C :: 0x34B0BCB5 ::
  0x391C0CB3 :: 0x4ED8AA4A :: 0x5B9CCA4F :: 0x682E6FF3 ::
  0x748F82EE :: 0x78A5636F :: 0x84C87814 :: 0x8CC70208 ::
  0x90BEFFFA :: 0xA4506CEB :: 0xBEF9A3F7 :: 0xC67178F2 :: nil.

(** The eight chaining words. *)
Record regs := Regs { ra : Z; rb : Z; rc : Z; rd : Z; re : Z; rf : Z; rg : Z; rh : Z }.

Definition initial_regs : regs :=
  Regs 0x6A09E667 0xBB67AE85 0x3C6EF372 0xA54FF53A
       0x510E527F 0x9B05688C 0x1F83D9AB 0x5BE0CD19.

Definition byte_val (b : byte) : Z := Z.of_N (Byte.to_N b).

(** Big-endian 32-bit words of a block. *)
Fixpoint be_words (n : nat) (bs : list byte) : list Z :=
  match n with
  | O => nil
  | S n' =>
      match bs with
      | b0 :: b1 :: b2 :: b3 :: rest =>
          Z.lor (Z.shiftl (byte_val b0) 24)
            (Z.lor (Z.shiftl (byte_val b1) 16)
               (Z.lor (Z.shiftl (byte_val b2) 8) (byte_val b3)))
          :: be_words n' rest
      | _ => 0 :: be_words n' nil
      end
  end.

(** Message schedule, most recent word first: [extend_schedule 48] turns the
    sixteen block words into the sixty-four schedule words. *)
Fixpoint extend_schedule (n : nat) (recent : list Z) : list Z :=
  match n with
  | O => recent
  | S n' =>
      let w :=
        add32 (add32 (ssig1 (nth 1 recent 0)) (nth 6 recent 0))
              (add32 (ssig0 (nth 14 recent 0)) (nth 15 recent 0)) in
      extend_schedule n' (w :: recent)
  end.

Definition schedule (block : list byte) : list Z :=
  rev (extend_schedule 48 (rev (be_words 16 block))).

Definition round (r : regs) (kw : Z * Z) : regs :=
  let t1 := add32 (add32 (add32 (rh r) (bsig1 (re r)))
                         (add32 (Ch (re r) (rf r) (rg r)) (fst kw))) (snd kw) in
  let t2 := add32 (bsig0 (ra r)) (Maj (ra r) (rb r) (rc r)) in
  Regs (add32 t1 t2) (ra r) (rb r) (rc r) (add32 (rd r) t1) (re r) (rf r) (rg r).

(** One application of the compression function to a 64-byte block. *)
Definition compress (r : regs) (block : list byte) : regs :=
  let r' := fold_left round (combine round_constants (schedule block)) r in
  Regs (add32 (ra r) (ra r')) (add32 (rb r) (rb r')) (add32 (rc r) (rc r'))
       (add32 (rd r) (rd r')) (add32 (re r) (re r')) (add32 (rf r) (rf r'))
       (add32 (rg r) (rg r')) (add32 (rh r) (rh r')).

(** Compress the first [n] whole blocks of [data]. *)
Fixpoint absorb_blocks (n : nat) (r : regs) (data : list byte) : regs :=
  match n with
  | O => r
  | S n' => absorb_blocks n' (compress r (firstn 64 data)) (skipn 64 data)
  end.

(** The hash object: chaining value, the bytes of the block that is not
    complete yet, and the number of bytes seen so far. *)
Record sha256_state := Sha256State {
  chain : regs;
  pending : list byte;
  total : nat
}.

(** [hashlib.sha256()] *)
Definition sha256 : sha256_state := Sha256State initial_regs nil 0.

(** [h.update(chunk)]: whole blocks are compressed at once, the rest waits. *)
Definition update (h : sha256_state) (chunk : list byte) : sha256_state :=
  let data := (pending h ++ chunk)%list in
  let n := (length data / 64)%nat in
  Sha256State (absorb_blocks n (chain h) data)
              (skipn (64 * n) data)
              (total h + length chunk).

Definition byte_of_Z (z : Z) : byte :=
  match Byte.of_N (Z.to_N (Z.land z 0xFF)) with
  | Some b => b
  | None => x00
  end.

(** The message length in bits, as eight big-endian bytes. *)
Definition be64 (z : Z) : list byte :=
  map (fun i => byte_of_Z (Z.shiftr z (8 * Z.of_nat i)))
      (7 :: 6 :: 5 :: 4 :: 3 :: 2 :: 1 :: 0 :: nil)%nat.

Definition zero_fill (n : nat) : nat := ((64 - (n + 9) mod 64) mod 64)%nat.

(** The padding that follows a message of [n] bytes. *)
Definition padding (n : nat) : list byte :=
  (x80 :: repeat x00 (zero_fill n) ++ be64 (8 * Z.of_nat n))%list.

Definition hex_digit (z : Z) : ascii :=
  nth (Z.to_nat (Z.land z 0xF)) (list_ascii_of_string "0123456789abcdef") "0"%char.

Definition hex_word (w : Z) : list ascii :=
  map (fun i => hex_digit (Z.shiftr w (4 * Z.of_nat i)))
      (7 :: 6 :: 5 :: 4 :: 3 :: 2 :: 1 :: 0 :: nil)%nat.

Definition hex_regs (r : regs) : string :=
  string_of_list_ascii
    (flat_map hex_word
       (ra r :: rb r :: rc r :: rd r :: re r :: rf r :: rg r :: rh r :: nil)).

(** [h.hexdigest()]: pad what is pending, compress, print in lowercase hex.
    The object itself is left as it was. *)
Definition hexdigest (h : sha256_state) : string :=
  let tail := (pending h ++ padding (total h))%list in
  hex_regs (absorb_blocks (length tail / 64) (chain h) tail).

(** The single-shot hash of a whole buffer, as the standard defines it: pad
    the message, cut it into 64-byte blocks, compress them in order. *)
Definition sha256_oneshot (msg : list byte) : string :=
  let padded := (msg ++ padding (length msg))%list in
  hex_regs (absorb_blocks (length padded / 64) initial_regs padded).

(** The state of an object that has been fed exactly the bytes [d]. *)
Definition fed (d : list byte) : sha256_state :=
  Sha256State (absorb_blocks (length d / 64) initial_regs d)
              (skipn (64 * (length d / 64)) d)
              (length d).

End hashlib.

(** ** Binary files opened for reading

    [open(path, "rb")] on a regular file: the bytes of the file and the
    position of the next unread byte. *)

Record BinaryIO := { stream : list byte; offset : nat }.

Definition open_rb (content : list byte) : BinaryIO :=
  {| stream := content; offset := 0 |}.

Definition unread (fp : BinaryIO) : list byte := skipn (offset fp) (stream fp).

(** [fp.read(n)]: at most [n] bytes, fewer only at the end of the file, and
    the empty bytes object once the file is exhausted. *)
Definition read (n : nat) (fp : BinaryIO) : list byte * BinaryIO :=
  let got := firstn n (unread fp) in
  (got, {| stream := stream fp; offset := offset fp + length got |}).

Definition chunk_size : nat := Z.to_nat 8192.

(** ** [_sha256_chunked_file_digest]

    [for chunk in iter(lambda: fp.read(8192), b""): sha256.update(chunk)].
    The loop has no bound in the source; [fuel] counts the calls to [read]
    the model may still make, and [None] means it ran out before the
    sentinel came back. *)
Fixpoint digest_loop (fuel : nat) (sha : hashlib.sha256_state) (fp : BinaryIO)
  : option (hashlib.sha256_state * BinaryIO) :=
  match fuel with
  | O => None
  | S fuel' =>
      match read chunk_size fp with
      | (nil, fp') => Some (sha, fp')
      | (chunk, fp') => digest_loop fuel' (hashlib.update sha chunk) fp'
      end
  end.

(** A file of [n] unread bytes is exhausted after at most [n] non-empty
    reads, so [S n] calls always reach the sentinel (see
    [digest_loop_terminates] and [digest_loop_fuel_irrelevant]). *)
Definition _sha256_chunked_file_digest (fp : BinaryIO) : option string :=
  match digest_loop (S (length (unread fp))) hashlib.sha256 fp with
  | Some (sha, _) => Some (hashlib.hexdigest sha)
  | None => None
  end.

(** The chunks the loop hands to [update], in order. *)
Fixpoint chunks_read (fuel : nat) (fp : BinaryIO) : list (list byte) :=
  match fuel with
  | O => nil
  | S fuel' =>
      match read chunk_size fp with
      | (nil, _) => nil
      | (chunk, fp') => chunk :: chunks_read fuel' fp'
      end
  end.

Definition bytes_of_string (s : string) : list byte := list_byte_of_string s.

Definition lowercase_hex (c : ascii) : Prop :=
  In c (list_ascii_of_string "0123456789abcdef").

(** ** [requests]

    [requests.get(url, stream=False)] downloads the whole body before it
    returns: the response object then holds it in [content].  With
    [stream=True] the body stays on the connection ([raw]) until it is
    iterated.  [iter_content] yields slices of the stored content in the
    first case and successive reads of the connection in the second. *)

Module requests.

Record Response := {
  content : list byte;
  content_consumed : bool;
  raw : list byte
}.

Definition respond (body : list byte) (stream : bool) : Response :=
  if stream
  then {| content := nil; content_consumed := false; raw := body |}
  else {| content := body; content_consumed := true; raw := nil |}.

(** [iter_slices]: [pos = 0; while pos < len(s): yield s[pos:pos+n]; pos += n],
    bounded by the number of bytes. *)
Fixpoint iter_slices (bound : nat) (s : list byte) (n : nat) : list (list byte) :=
  match bound with
  | O => nil
  | S bound' =>
      match s with
      | nil => nil
      | _ => firstn n s :: iter_slices bound' (skipn n s) n
      end
  end.

Definition iter_content (r : Response) (chunk_size : nat) : list (list byte) :=
  if content_consumed r
  then iter_slices (length (content r)) (content r) chunk_size
  else iter_slices (length (raw r)) (raw r) chunk_size.

(** Bytes of the body that the response object holds in memory. *)
Definition buffered (r : Response) : nat := length (content r).

End requests.

(** ** Paths

    Paths are rendered as strings; [dir // name] is pathlib's [dir / name]. *)

Definition joinpath (dir name : string) : string := dir +:+ "/" +:+ name.
Infix "//" := joinpath (at level 40, left associativity).

Definition is_slash (c : ascii) : bool := Ascii.eqb c "/".
Definition is_dot (c : ascii) : bool := Ascii.eqb c ".".

(** On the reversed path: drop the suffix of the last component, when it has
    one (a dot that is neither its first nor its last character). *)
Fixpoint drop_suffix_rev (r : list ascii) : option (list ascii) :=
  match r with
  | nil => None
  | c :: r' =>
      if is_slash c then None
      else if is_dot c then
        match r' with
        | nil => None
        | c' :: _ => if is_slash c' then None else Some r'
        end
      else drop_suffix_rev r'
  end.

(** [path.with_suffix(suffix)] *)
Definition with_suffix (path suffix : string) : string :=
  let r := rev (list_ascii_of_string path) in
  let stem :=
    match r with
    | nil => r
    | c :: _ => if is_dot c then r else default r (drop_suffix_rev r)
    end in
  string_of_list_ascii (rev stem ++ list_ascii_of_string suffix).

Fixpoint ends_with (suffix s : string) : bool :=
  String.eqb s suffix
  || match s with
     | EmptyString => false
     | String _ s' => ends_with suffix s'
     end.

Fixpoint strip_prefix (prefix s : string) : option string :=
  match prefix with
  | EmptyString => Some s
  | String c prefix' =>
      match s with
      | EmptyString => None
      | String d s' => if Ascii.eqb c d then strip_prefix prefix' s' else None
      end
  end.

Definition single_component (name : string) : bool :=
  forallb (fun c => negb (is_slash c)) (list_ascii_of_string name).

(** ** The file system, the log and the control outcomes *)

Inductive Exception :=
| RuntimeError (msg : string)
| FileNotFoundError (path : string)
| ConnectionError (url : string)
| ReadError (path : string)
| ParserError (path : string).

Record Identifier := { ident_id : string; ident_type : string }.
Record Link := { link_url : string; link_description : string }.

(** Modelled from the spec: the class [Dataset] of [chemnlp.data_val.model]
    is not among the sources.  The spec describes the metadata descriptor as
    holding "name, description, identifier placeholders, license URL,
    related links, final record count, and a bibliographic citation"; these
    are the keyword arguments the script passes, and the record has one
    field for each.  The construction is taken to accept them. *)
Record Dataset := {
  name : string;
  description : string;
  identifiers : list Identifier;
  license : string;
  links : list Link;
  num_points : nat;
  bibtex : list string
}.

(** What a run does to the outside, in order. *)
Inductive Event :=
| EvExists (path : string) (answer : bool)
| EvGet (url : string) (response : requests.Response)
| EvCreate (path : string)
| EvWrite (path : string) (chunk : list byte)
| EvDigest (path : string) (digest : string)
| EvWarn (msg : string)
| EvPrint (msg : string)
| EvRename (src dst : string)
| EvExtract (archive dest : string)
| EvToCsv (source : string) (dest : string) (rows : list byte)
| EvParseFailed (source : string)
| EvYamlDump (path : string) (meta : Dataset).

Record World := {
  fs : gmap string (list byte);
  log : list Event
}.

(** How a statement ends: it falls through with a value, executes [return],
    raises, or (only for the fuel-bounded digest loop) fails to stop. *)
Inductive Outcome (A : Type) :=
| Value (a : A)
| Returned
| Raised (e : Exception)
| OutOfFuel.
Arguments Value {A} a.
Arguments Returned {A}.
Arguments Raised {A} e.
Arguments OutOfFuel {A}.

Definition M (A : Type) : Type := World -> Outcome A * World.

Definition ret {A} (a : A) : M A := fun w => (Value a, w).

Definition bind {A B} (m : M A) (k : A -> M B) : M B :=
  fun w =>
    match m w with
    | (Value a, w') => k a w'
    | (Returned, w') => (Returned, w')
    | (Raised e, w') => (Raised e, w')
    | (OutOfFuel, w') => (OutOfFuel, w')
    end.

Notation "x <- m ;; k" := (bind m (fun x => k))
  (at level 100, m at next level, right associativity).
Notation "m ;; k" := (bind m (fun _ => k))
  (at level 100, right associativity).

Definition raise {A} (e : Exception) : M A := fun w => (Raised e, w).
Definition return_ {A} : M A := fun w => (Returned, w).

Definition emit (e : Event) : M unit :=
  fun w => (Value tt, {| fs := fs w; log := log w ++ [e] |}).

Definition put_file (path : string) (data : list byte) : M unit :=
  fun w => (Value tt, {| fs := <[path := data]> (fs w); log := log w |}).

(** [try: body except Exception: handler]; what the body did before it
    raised stays done. *)
Definition try_except {A} (body handler : M A) : M A :=
  fun w =>
    match body w with
    | (Raised _, w') => handler w'
    | r => r
    end.

(** [for x in xs: body], with the loop-carried local variables in [acc]. *)
Fixpoint for_each {X A} (xs : list X) (acc : A) (body : X -> A -> M A) : M A :=
  match xs with
  | nil => ret acc
  | x :: xs' => acc' <- body x acc ;; for_each xs' acc' body
  end.

(** ** What the script does not define itself

    The directory of the script, the server behind the download URL, the
    decoder of tar archives, the ThermoML parser with its CSV rendering, and
    the YAML printer.  [None] stands for the library raising. *)

Record Collaborators := {
  here : string;
  http_body : string -> option (list byte);
  tar_members : list byte -> option (list (string * list byte));
  thermopyl_to_csv : string -> list byte -> option (list byte);
  yaml_dump : Dataset -> list byte
}.

Definition nl : string := String "010" EmptyString.

Definition str (n : nat) : string := NilEmpty.string_of_uint (Nat.to_uint n).

(** [dir.glob(pattern)] for a pattern [*ext]: the entries directly inside
    [dir] whose name ends in [ext].  The order of a directory listing is the
    operating system's; here it is the order of the map. *)
Definition glob_match (dir ext path : string) : bool :=
  match strip_prefix (dir +:+ "/") path with
  | Some entry => single_component entry && ends_with ext entry
  | None => false
  end.

Definition glob_paths (files : gmap string (list byte)) (dir ext : string)
  : list string :=
  List.filter (glob_match dir ext) (map fst (map_to_list files)).

Section Script.

Variable env : Collaborators.

(** The two pinned digests.  The script fixes them (see [sha256_checksum]
    and [final_expected_csv_checksum] below); the body is written for any
    pair. *)
Variables archive_pin csv_pin : string.

(** *** Primitive statements *)

(** [path.exists()] *)
Definition path_exists (path : string) : M bool :=
  fun w =>
    let answer := match fs w !! path with Some _ => true | None => false end in
    (Value answer, {| fs := fs w; log := log w ++ [EvExists path answer] |}).

(** [requests.get(url)]: [stream] is left at its default, [False]. *)
Definition requests_get (url : string) : M requests.Response :=
  fun w =>
    match http_body env url with
    | None => (Raised (ConnectionError url), w)
    | Some body =>
        let r := requests.respond body false in
        (Value r, {| fs := fs w; log := log w ++ [EvGet url r] |})
    end.

(** [open(path, "wb")]: the file is created, or emptied if it exists. *)
Definition open_wb (path : string) : M unit :=
  fun w => (Value tt, {| fs := <[path := nil]> (fs w);
                         log := log w ++ [EvCreate path] |}).

(** [f.write(chunk)] *)
Definition write (path : string) (chunk : list byte) : M unit :=
  fun w => (Value tt,
            {| fs := <[path := (default nil (fs w !! path) ++ chunk)%list]> (fs w);
               log := log w ++ [EvWrite path chunk] |}).

(** [with open(path, "rb") as f: ... = _sha256_chunked_file_digest(f)] *)
Definition file_digest (path : string) : M string :=
  fun w =>
    match fs w !! path with
    | None => (Raised (FileNotFoundError path), w)
    | Some data =>
        match _sha256_chunked_file_digest (open_rb data) with
        | Some digest =>
            (Value digest,
             {| fs := fs w; log := log w ++ [EvDigest path digest] |})
        | None => (OutOfFuel, w)
        end
    end.

(** [src.rename(dst)], with the POSIX behaviour of replacing [dst]. *)
Definition rename (src dst : string) : M unit :=
  fun w =>
    match fs w !! src with
    | None => (Raised (FileNotFoundError src), w)
    | Some data =>
        (Value tt, {| fs := <[dst := data]> (delete src (fs w));
                      log := log w ++ [EvRename src dst] |})
    end.

Definition unpack (dest : string) (files : gmap string (list byte))
    (members : list (string * list byte)) : gmap string (list byte) :=
  fold_left (fun m member => <[dest // member.1 := member.2]> m) members files.

(** [with tarfile.open(archive, "r:*") as tar: tar.extractall(dest)] *)
Definition extractall (archive dest : string) : M unit :=
  fun w =>
    match fs w !! archive with
    | None => (Raised (FileNotFoundError archive), w)
    | Some data =>
        match tar_members env data with
        | None => (Raised (ReadError archive), w)
        | Some members =>
            (Value tt, {| fs := unpack dest (fs w) members;
                          log := log w ++ [EvExtract archive dest] |})
        end
    end.

Definition glob (dir ext : string) : M (list string) :=
  fun w => (Value (glob_paths (fs w) dir ext), w).

(** [open(path, "r")]; the handle itself is never used by the script. *)
Definition open_r (path : string) : M unit :=
  fun w =>
    match fs w !! path with
    | None => (Raised (FileNotFoundError path), w)
    | Some _ => (Value tt, w)
    end.

(** [pd.DataFrame(ThermoPylParser(path).parse()).to_csv(dest, mode="a")]:
    the parser reads the file; its rows are appended to [dest], which is
    created when it does not exist.  When the parser raises nothing is
    written. *)
Definition parse_to_csv (path dest : string) : M unit :=
  fun w =>
    match fs w !! path with
    | None => (Raised (FileNotFoundError path), w)
    | Some data =>
        match thermopyl_to_csv env path data with
        | None =>
            (Raised (ParserError path),
             {| fs := fs w; log := log w ++ [EvParseFailed path] |})
        | Some rows =>
            (Value tt,
             {| fs := <[dest := (default nil (fs w !! dest) ++ rows)%list]> (fs w);
                log := log w ++ [EvToCsv path dest rows] |})
        end
    end.

(** [with open(path, "w") as f: yaml.dump(meta.dict(), f, sort_keys=False)] *)
Definition yaml_dump_to (path : string) (meta : Dataset) : M unit :=
  fun w => (Value tt, {| fs := <[path := yaml_dump env meta]> (fs w);
                         log := log w ++ [EvYamlDump path meta] |}).

Definition warn (msg : string) : M unit := emit (EvWarn msg).
Definition print (msg : string) : M unit := emit (EvPrint msg).

(** *** The script *)

Definition fname : string := "ThermoML.v2020-09-30.tgz".
Definition download_path : string := here env // fname.
Definition remote_data_path : string :=
  "https://data.nist.gov/od/ds/mds2-2422/" +:+ fname.
Definition final_csv_path : string := here env // "thermoml_archive.csv".
Definition root_dois : list string := ["10.1007"; "10.1016"; "10.1021"].
Definition meta_path : string := "meta.yaml".

Definition checksum_error (received_hash : string) : string :=
  "Downloaded file did not match expected checksum -- "
  +:+ "either a new version has been released or something has gone wrong!"
  +:+ nl +:+ "Expected: " +:+ archive_pin
  +:+ nl +:+ "Received: " +:+ received_hash.

Definition old_csv_warning : string :=
  "Old CSV file did not match expected checksum, will try to recreate.".

Definition already_available : string :=
  "Correct csv file already available at " +:+ final_csv_path +:+ ", exiting...".

Definition ingested (num_points num_failed : nat) : string :=
  "Ingested " +:+ str num_points +:+ " with " +:+ str num_failed +:+ " failures.".

Definition final_csv_warning (csv_hash : string) : string :=
  "Final CSV file did not match expected checksum!"
  +:+ nl +:+ "Expected: " +:+ csv_pin
  +:+ nl +:+ "Received: " +:+ csv_hash.

(** [# get raw data] (lines 32-38); [tqdm] only draws a progress bar. *)
Definition get_raw_data : M unit :=
  present <- path_exists download_path ;;
  if negb present then
    data <- requests_get remote_data_path ;;
    open_wb download_path ;;
    for_each (requests.iter_content data chunk_size) tt
             (fun chunk _ => write download_path chunk)
  else ret tt.

(** [# check if checksum is correct] (lines 41-50) *)
Definition check_checksum : M unit :=
  received_hash <- file_digest download_path ;;
  if negb (String.eqb received_hash archive_pin)
  then raise (RuntimeError (checksum_error received_hash))
  else ret tt.

(** The test on an output table that is already there (lines 53-65). *)
Definition check_existing_csv : M unit :=
  present <- path_exists final_csv_path ;;
  if present then
    csv_sha256_checksum <- file_digest final_csv_path ;;
    if negb (String.eqb csv_sha256_checksum csv_pin) then
      warn old_csv_warning ;;
      rename final_csv_path (with_suffix final_csv_path ".old.csv")
    else
      print already_available ;;
      return_
  else ret tt.

(** [# Extract tar.gz archive] (lines 68-69) *)
Definition extract_archive : M unit := extractall download_path (here env).

(** One record file (lines 80-87); the pair is [(num_points, num_failed)]. *)
Definition scrape_file (path : string) (counts : nat * nat) : M (nat * nat) :=
  open_r path ;;
  try_except
    (parse_to_csv path final_csv_path ;;
     ret (counts.1 + 1, counts.2))
    (ret (counts.1, counts.2 + 1)).

(** The two nested loops (lines 73-87). *)
Definition scrape_files : M (nat * nat) :=
  for_each root_dois (0, 0)
    (fun doi counts =>
       paths <- glob (here env // doi) ".xml" ;;
       for_each paths counts scrape_file).

(** The check of the table that was just written (lines 91-99). *)
Definition check_final_csv : M unit :=
  csv_hash <- file_digest final_csv_path ;;
  if negb (String.eqb csv_hash csv_pin)
  then warn (final_csv_warning csv_hash)
  else ret tt.

(** [# create metadata] (lines 102-136) *)
Definition make_meta (num_points : nat) : Dataset := {|
  name := "thermoml_archive";
  description := "ThermoML is an XML-based IUPAC standard for the storage and exchange of experimental thermophysical and thermochemical property data. The ThermoML archive is a subset of Thermodynamics Research Center (TRC) data holdings corresponding to cooperation between NIST TRC and five journals.";
  identifiers := [ {| ident_id := ""; ident_type := "inchi" |};
                   {| ident_id := ""; ident_type := "inchikey" |} ];
  license := "https://www.nist.gov/open/license";
  links := [ {| link_url := "https://doi.org/10.18434/mds2-2422";
                link_description := "data publication" |};
             {| link_url := "https://www.nist.gov/publications/towards-improved-fairness-thermoml-archive";
                link_description := "NIST publication description" |};
             {| link_url := "https://trc.nist.gov/ThermoML";
                link_description := "Live database hosted at NIST Thermodynamics Research Center" |} ];
  num_points := num_points;
  bibtex := [ "@article{Riccardi2022,title = {Towards improved {{FAIRness}} of the {{ThermoML Archive}}},author = {Riccardi, Demian and Trautt, Zachary and Bazyleva, Ala and Paulechka, Eugene and Diky, Vladimir and Magee, Joseph W. and Kazakov, Andrei F. and Townsend, Scott A. and Muzny, Chris D.},year = {2022},journal = {Journal of Computational Chemistry},volume = {43},number = {12},pages = {879--887},doi = {10.1002/jcc.26842},langid = {english}}" ]
|}.

(** Everything from the extraction on (lines 67-138). *)
Definition rebuild : M unit :=
  extract_archive ;;
  counts <- scrape_files ;;
  print (ingested counts.1 counts.2) ;;
  check_final_csv ;;
  yaml_dump_to meta_path (make_meta counts.1).

(** Two cuts of the same body, used to talk about a run that has come as
    far as the extraction, or as far as the end of the loops. *)
Definition front : M unit :=
  get_raw_data ;; check_checksum ;; check_existing_csv.

Definition report_and_describe (counts : nat * nat) : M unit :=
  print (ingested counts.1 counts.2) ;;
  check_final_csv ;;
  yaml_dump_to meta_path (make_meta counts.1).

(** The body of [get_and_transform_data]. *)
Definition pipeline : M unit :=
  get_raw_data ;;
  check_checksum ;;
  check_existing_csv ;;
  rebuild.

End Script.

(** The digests the script pins (lines 26-30). *)
Definition sha256_checksum : string :=
  "231161b5e443dc1ae0e5da8429d86a88474cb722016e5b790817bb31c58d7ec2".
Definition final_expected_csv_checksum : string :=
  "fc296f47c1877b6ace72f7aa4a80c489b80d0eb25ea3a59885d067e554378b08".

Definition get_and_transform_data (env : Collaborators) : M unit :=
  pipeline env sha256_checksum final_expected_csv_checksum.

(** A run of the script on a file system, with an empty log. *)
Definition start (files : gmap string (list byte)) : World :=
  {| fs := files; log := nil |}.

(** * Vocabulary of the statements *)

(** Reading the log of the loops. *)
Definition converted (e : Event) : bool :=
  match e with EvToCsv _ _ _ => true | _ => false end.

Definition parse_failed (e : Event) : bool :=
  match e with EvParseFailed _ => true | _ => false end.

Definition record_file (e : Event) : option string :=
  match e with
  | EvToCsv source _ _ => Some source
  | EvParseFailed source => Some source
  | _ => None
  end.

Definition rows_of (e : Event) : list byte :=
  match e with EvToCsv _ _ rows => rows | _ => nil end.

Definition successes (evs : list Event) : nat := length (List.filter converted evs).
Definition failures (evs : list Event) : nat := length (List.filter parse_failed evs).

(** What a stretch of the loops, logged as [evs], has done. *)
Record scraped (env : Collaborators) (w : World) (counts : nat * nat) (evs : list Event)
    (w' : World) (counts' : nat * nat) : Prop := {
  scraped_log : log w' = log w ++ evs;
  scraped_events :
    Forall (fun e => converted e || parse_failed e = true) evs;
  scraped_points : counts'.1 = counts.1 + successes evs;
  scraped_failed : counts'.2 = counts.2 + failures evs;
  scraped_frame : forall path, path <> final_csv_path env -> fs w' !! path = fs w !! path;
  scraped_table :
    fs w' !! final_csv_path env
    = if successes evs =? 0 then fs w !! final_csv_path env
      else Some (default nil (fs w !! final_csv_path env) ++ flat_map rows_of evs)%list
}.

(** An event of the loops is about a file found in one of [dois]. *)
Definition enumerated_in (env : Collaborators) (dois : list string) (e : Event) : Prop :=
  exists path doi, record_file e = Some path /\ In doi dois
                   /\ glob_match (here env // doi) ".xml" path = true.

Definition is_extract (e : Event) : bool :=
  match e with EvExtract _ _ => true | _ => false end.

Definition is_yaml_dump (e : Event) : bool :=
  match e with EvYamlDump _ _ => true | _ => false end.

Definition is_get (e : Event) : bool :=
  match e with EvGet _ _ => true | _ => false end.

(** [e] asks whether [path] exists. *)
Definition asks_exists (path : string) (e : Event) : bool :=
  match e with EvExists p _ => String.eqb p path | _ => false end.

(** [e] creates, changes, removes or replaces the file [path]; what an
    extraction writes depends on the archive and is not covered here. *)
Definition writes_to (path : string) (e : Event) : bool :=
  match e with
  | EvCreate p | EvWrite p _ | EvYamlDump p _ => String.eqb p path
  | EvToCsv _ dest _ => String.eqb dest path
  | EvRename src dst => String.eqb src path || String.eqb dst path
  | _ => false
  end.

(** The log only grows. *)
Definition extends (w w' : World) : Prop := exists evs, log w' = log w ++ evs.

(** The archive file as it is once [get_raw_data] is through. *)
Definition local_archive (env : Collaborators) (files : gmap string (list byte)) : option (list byte) :=
  match files !! download_path env with
  | Some archive => Some archive
  | None => http_body env remote_data_path
  end.

Definition fetch_log (env : Collaborators) (files : gmap string (list byte)) (archive : list byte)
  : list Event :=
  match files !! download_path env with
  | Some _ => [EvExists (download_path env) true]
  | None =>
      [EvExists (download_path env) false;
       EvGet remote_data_path (requests.respond archive false);
       EvCreate (download_path env)]
      ++ map (EvWrite (download_path env))
             (requests.iter_slices (length archive) archive chunk_size)
  end.

(** * Test worlds *)

(** A stream of [n] zero bytes. *)
Definition zeros (n : Z) : list byte := repeat x00 (Z.to_nat n).

Module Toy.

Definition archive : list byte := bytes_of_string "tgz".
Definition table : list byte := bytes_of_string "rows".
Definition archive_pin : string := Eval vm_compute in hashlib.sha256_oneshot archive.
Definition table_pin : string := Eval vm_compute in hashlib.sha256_oneshot table.

(** The parser of this world fails on empty files and on nothing else. *)
Definition parser (path : string) (data : list byte) : option (list byte) :=
  match data with
  | nil => None
  | _ => Some (bytes_of_string "r")
  end.

Definition env (members : list (string * list byte)) : Collaborators := {|
  here := "/repo";
  http_body := fun _ => Some archive;
  tar_members := fun _ => Some members;
  thermopyl_to_csv := parser;
  yaml_dump := fun meta => bytes_of_string (str (num_points meta))
|}.

Definition mixed : list (string * list byte) :=
  [("10.1007/a.xml", bytes_of_string "<ok/>");
   ("10.1016/b.xml", nil);
   ("10.1021/c.xml", bytes_of_string "<ok/>")].

Definition all_bad : list (string * list byte) :=
  [("10.1007/a.xml", nil); ("10.1016/b.xml", nil)].

Definition with_table (data : list byte) : gmap string (list byte) :=
  {[ "/repo/thermoml_archive.csv" := data ]}.

Definition with_meta (data : list byte) : gmap string (list byte) :=
  {[ "meta.yaml" := data ]}.

Definition with_archive (data : list byte) : gmap string (list byte) :=
  {[ "/repo/ThermoML.v2020-09-30.tgz" := data ]}.

(** The same world with the server out of reach. *)
Definition offline_env : Collaborators := {|
  here := "/repo";
  http_body := fun _ => None;
  tar_members := fun _ => Some mixed;
  thermopyl_to_csv := parser;
  yaml_dump := fun meta => bytes_of_string (str (num_points meta))
|}.

(** A server whose answer does not fit in one chunk. *)
Definition big_body : list byte := repeat x00 (Z.to_nat 10000).

Definition big_env : Collaborators := {|
  here := "/repo";
  http_body := fun _ => Some big_body;
  tar_members := fun _ => None;
  thermopyl_to_csv := parser;
  yaml_dump := fun _ => nil
|}.

End Toy.

(** * Properties of the hash object *)

Module hashlib_facts.
Import hashlib.

Lemma absorb_blocks_app_exact n m r (a b : list byte) :
  length a = (64 * n)%nat ->
  absorb_blocks (n + m) r (a ++ b) = absorb_blocks m (absorb_blocks n r a) b.
Proof.
  revert r a. induction n as [|n IH]; intros r a Hlen.
  - destruct a; [reflexivity | simpl in Hlen; lia].
  - cbn [Nat.add absorb_blocks].
    assert (Ha : (64 <= length a)%nat) by lia.
    rewrite (firstn_app 64 a b), (skipn_app 64 a b).
    replace (64 - length a)%nat with 0%nat by lia.
    rewrite firstn_0, skipn_0, app_nil_r.
    apply IH. rewrite length_skipn. lia.
Qed.

Lemma absorb_blocks_prefix n r (a b : list byte) :
  (64 * n <= length a)%nat ->
  absorb_blocks n r (a ++ b) = absorb_blocks n r a.
Proof.
  revert r a. induction n as [|n IH]; intros r a Hlen; [reflexivity|].
  cbn [absorb_blocks].
  rewrite (firstn_app 64 a b), (skipn_app 64 a b).
  replace (64 - length a)%nat with 0%nat by lia.
  rewrite firstn_0, skipn_0, app_nil_r.
  apply IH. rewrite length_skipn. lia.
Qed.

Lemma skipn_app_exact (a t : list byte) k :
  skipn (length a + k) (a ++ t) = skipn k t.
Proof.
  rewrite skipn_app, skipn_all2 by lia.
  replace (length a + k - length a)%nat with k by lia. reflexivity.
Qed.

Lemma absorb_blocks_split q r (a t : list byte) :
  length a = (64 * q)%nat ->
  absorb_blocks (length (a ++ t) / 64) r (a ++ t)
  = absorb_blocks (length t / 64) (absorb_blocks q r a) t.
Proof.
  intros Hlen.
  replace (length (a ++ t) / 64)%nat with (q + length t / 64)%nat.
  - now apply absorb_blocks_app_exact.
  - rewrite length_app, Hlen, (Nat.mul_comm 64 q), Nat.div_add_l by lia.
    reflexivity.
Qed.

Lemma fed_nil : fed nil = sha256.
Proof. reflexivity. Qed.

(** [d] is a number of whole blocks followed by the pending bytes. *)
Lemma whole_blocks (d : list byte) :
  exists a, d = (a ++ pending (fed d))%list
            /\ length a = (64 * (length d / 64))%nat
            /\ chain (fed d) = absorb_blocks (length d / 64) initial_regs a.
Proof.
  exists (firstn (64 * (length d / 64)) d). cbn [fed pending chain].
  assert (Hlen : length (firstn (64 * (length d / 64)) d)
                 = (64 * (length d / 64))%nat).
  { rewrite length_firstn. pose proof (Nat.div_mod_eq (length d) 64). lia. }
  split; [symmetry; apply firstn_skipn|]. split; [exact Hlen|].
  rewrite <- (firstn_skipn (64 * (length d / 64)) d) at 2.
  apply absorb_blocks_prefix. lia.
Qed.

(** Resuming from the chaining value of [fed d] with the pending bytes in
    front is the same as hashing from the start. *)
Lemma absorb_resume (d s : list byte) :
  absorb_blocks (length (pending (fed d) ++ s) / 64) (chain (fed d))
                (pending (fed d) ++ s)
  = absorb_blocks (length (d ++ s) / 64) initial_regs (d ++ s).
Proof.
  destruct (whole_blocks d) as (a & Hd & Hlen & Hchain).
  rewrite Hchain. revert Hd Hlen.
  generalize (pending (fed d)) (length d / 64)%nat. intros p q -> Hlen.
  rewrite <- app_assoc. symmetry. now apply absorb_blocks_split.
Qed.

Lemma update_fed (d c : list byte) : update (fed d) c = fed (d ++ c).
Proof.
  transitivity
    (Sha256State (absorb_blocks (length (d ++ c) / 64) initial_regs (d ++ c))
                 (skipn (64 * (length (d ++ c) / 64)) (d ++ c))
                 (length (d ++ c))); [|reflexivity].
  unfold update. rewrite absorb_resume. f_equal.
  - destruct (whole_blocks d) as (a & Hd & Hlen & _).
    revert Hd Hlen. generalize (pending (fed d)) (length d / 64)%nat.
    intros p q -> Hlen.
    rewrite <- !app_assoc, (length_app a), Hlen.
    rewrite (Nat.mul_comm 64 q), Nat.div_add_l by lia.
    replace (64 * (q + length (p ++ c) / 64))%nat
      with (length a + 64 * (length (p ++ c) / 64))%nat by lia.
    now rewrite skipn_app_exact.
  - cbn [fed total]. rewrite length_app. reflexivity.
Qed.

(** Feeding any sequence of chunks is feeding their concatenation. *)
Lemma update_chunks (chunks : list (list byte)) (d : list byte) :
  fold_left update chunks (fed d) = fed (d ++ concat chunks).
Proof.
  revert d. induction chunks as [|c cs IH]; intros d; cbn [fold_left concat].
  - now rewrite app_nil_r.
  - rewrite update_fed, IH, <- app_assoc. reflexivity.
Qed.

Lemma hexdigest_fed (d : list byte) : hexdigest (fed d) = sha256_oneshot d.
Proof.
  unfold hexdigest, sha256_oneshot.
  replace (total (fed d)) with (length d) by reflexivity.
  now rewrite absorb_resume.
Qed.

End hashlib_facts.

(** * Properties of the chunked reader *)

Section Reader.
Import hashlib hashlib_facts.

Lemma chunk_size_pos : (0 < chunk_size)%nat.
Proof. unfold chunk_size. lia. Qed.

Lemma read_chunk n fp :
  fst (read n fp) = firstn n (unread fp)
  /\ unread (snd (read n fp)) = skipn n (unread fp).
Proof.
  split; [reflexivity|].
  unfold read, unread. cbn [snd stream offset].
  rewrite skipn_skipn, length_firstn, length_skipn.
  destruct (Nat.le_gt_cases n (length (stream fp) - offset fp)) as [Hle|Hgt].
  - f_equal. lia.
  - rewrite !skipn_all2 by lia. reflexivity.
Qed.

Lemma read_empty_iff fp :
  fst (read chunk_size fp) = nil <-> unread fp = nil.
Proof.
  destruct (read_chunk chunk_size fp) as [-> _].
  pose proof chunk_size_pos.
  destruct (unread fp) as [|b l]; [now rewrite firstn_nil|].
  destruct chunk_size; [lia|]. split; discriminate.
Qed.

(** The loop is the fold of [update] over the chunks it reads, and it stops
    on the sentinel as soon as the fuel exceeds the number of unread bytes. *)
Lemma digest_loop_fold fuel sha fp :
  (length (unread fp) < fuel)%nat ->
  exists fp',
    digest_loop fuel sha fp = Some (fold_left update (chunks_read fuel fp) sha, fp')
    /\ unread fp' = nil.
Proof.
  revert sha fp. induction fuel as [|fuel IH]; intros sha fp Hfuel; [lia|].
  cbn [digest_loop chunks_read].
  destruct (read_chunk chunk_size fp) as [Hgot Hrest].
  pose proof (read_empty_iff fp) as Hempty.
  destruct (read chunk_size fp) as [got fp']. cbn [fst snd] in *.
  destruct got as [|b got].
  - exists fp'. split; [reflexivity|].
    rewrite Hrest, (proj1 Hempty eq_refl). apply skipn_nil.
  - apply IH. rewrite Hrest, length_skipn.
    assert (unread fp <> nil) by (intros E; apply Hempty in E; discriminate).
    pose proof chunk_size_pos. destruct (unread fp); [congruence|].
    cbn [length] in *. lia.
Qed.

Lemma chunks_read_concat fuel fp :
  (length (unread fp) < fuel)%nat -> concat (chunks_read fuel fp) = unread fp.
Proof.
  revert fp. induction fuel as [|fuel IH]; intros fp Hfuel; [lia|].
  cbn [chunks_read].
  destruct (read_chunk chunk_size fp) as [Hgot Hrest].
  pose proof (read_empty_iff fp) as Hempty.
  destruct (read chunk_size fp) as [got fp']. cbn [fst snd] in *.
  destruct got as [|b got].
  - symmetry. now apply Hempty.
  - cbn [concat]. rewrite IH.
    + rewrite Hgot, Hrest. apply firstn_skipn.
    + rewrite Hrest, length_skipn.
      pose proof chunk_size_pos. destruct (unread fp); [discriminate|].
      cbn [length] in *. lia.
Qed.

Lemma chunks_read_nonempty fuel fp c cs :
  chunks_read fuel fp = c :: cs -> unread fp <> nil.
Proof.
  destruct fuel as [|fuel]; [discriminate|]. cbn [chunks_read].
  pose proof (read_empty_iff fp) as Hempty.
  destruct (read chunk_size fp) as [[|b got] fp']; [discriminate|].
  intros _ E. apply Hempty in E. discriminate.
Qed.

Lemma chunks_read_cons fuel fp c cs :
  chunks_read fuel fp = c :: cs ->
  exists fuel', fuel = S fuel' /\ c = firstn chunk_size (unread fp) /\ c <> nil
    /\ cs = chunks_read fuel' (snd (read chunk_size fp)).
Proof.
  destruct fuel as [|fuel]; [discriminate|]. cbn [chunks_read].
  destruct (read_chunk chunk_size fp) as [Hgot _].
  destruct (read chunk_size fp) as [[|b got] fp']; [discriminate|].
  cbn [fst snd] in *. intros [= <- <-]. exists fuel.
  split; [reflexivity|]. split; [exact Hgot|]. split; [discriminate | reflexivity].
Qed.

Lemma full_chunk_before_more fp :
  unread (snd (read chunk_size fp)) <> nil ->
  length (fst (read chunk_size fp)) = chunk_size.
Proof.
  destruct (read_chunk chunk_size fp) as [-> ->]. intros Hne.
  rewrite length_firstn.
  destruct (Nat.le_gt_cases chunk_size (length (unread fp))); [lia|].
  exfalso. apply Hne. apply skipn_all2. lia.
Qed.

(** Every chunk is non-empty and at most [chunk_size] long, and every chunk
    that is followed by another one is exactly [chunk_size] long. *)
Lemma chunks_read_sizes fuel fp :
  Forall (fun c => (0 < length c <= chunk_size)%nat) (chunks_read fuel fp)
  /\ forall i c, chunks_read fuel fp !! i = Some c ->
                 (S i < length (chunks_read fuel fp))%nat ->
                 length c = chunk_size.
Proof.
  revert fp. induction fuel as [|fuel IH]; intros fp.
  - split; [constructor|]. intros i c Hi. discriminate.
  - destruct (chunks_read (S fuel) fp) as [|c cs] eqn:Hread.
    + split; [constructor|]. intros i c Hi. discriminate.
    + apply chunks_read_cons in Hread as (fuel' & [= <-] & Hc & Hne & ->).
      destruct (IH (snd (read chunk_size fp))) as [IHall IHfull]. split.
      * constructor; [|exact IHall]. split.
        -- destruct c; [congruence | cbn [length]; lia].
        -- rewrite Hc, length_firstn. apply Nat.le_min_l.
      * intros [|i] c' Hi Hmore; cbn [length] in Hmore.
        -- injection Hi as <-.
           destruct (chunks_read fuel (snd (read chunk_size fp)))
             as [|c2 cs2] eqn:Hnext; [cbn [length] in Hmore; lia|].
           apply chunks_read_nonempty in Hnext.
           rewrite Hc. now apply full_chunk_before_more.
        -- apply (IHfull i c' Hi). lia.
Qed.

Lemma digest_loop_fed fuel fp d :
  (length (unread fp) < fuel)%nat ->
  exists fp', digest_loop fuel (fed d) fp = Some (fed (d ++ unread fp), fp')
              /\ unread fp' = nil.
Proof.
  intros Hfuel. destruct (digest_loop_fold fuel (fed d) fp Hfuel) as (fp' & E & Hend).
  exists fp'. split; [|exact Hend].
  now rewrite E, update_chunks, chunks_read_concat.
Qed.

(** Termination: with enough fuel the loop always reaches the sentinel. *)
Lemma digest_loop_terminates fp sha :
  is_Some (digest_loop (S (length (unread fp))) sha fp).
Proof.
  destruct (digest_loop_fold (S (length (unread fp))) sha fp) as (fp' & E & _);
    [lia|]. rewrite E. eauto.
Qed.

(** More fuel than needed changes nothing. *)
Lemma digest_loop_fuel_irrelevant fuel fp :
  (length (unread fp) < fuel)%nat ->
  fst <$> digest_loop fuel sha256 fp
  = fst <$> digest_loop (S (length (unread fp))) sha256 fp.
Proof.
  intros Hfuel. rewrite <- fed_nil.
  destruct (digest_loop_fed fuel fp nil Hfuel) as (fp1 & -> & _).
  destruct (digest_loop_fed (S (length (unread fp))) fp nil) as (fp2 & -> & _);
    [lia|]. reflexivity.
Qed.

(** The helper returns the single-shot hash of what was unread. *)
Lemma chunked_digest_unread fp :
  _sha256_chunked_file_digest fp = Some (sha256_oneshot (unread fp)).
Proof.
  unfold _sha256_chunked_file_digest. rewrite <- fed_nil.
  destruct (digest_loop_fed (S (length (unread fp))) fp nil) as (fp' & -> & _);
    [lia|]. now rewrite app_nil_l, hexdigest_fed.
Qed.

Lemma chunked_digest_open content :
  _sha256_chunked_file_digest (open_rb content) = Some (sha256_oneshot content).
Proof. apply chunked_digest_unread. Qed.

End Reader.

(** * Paths of the script *)

Section PathFacts.

Variable env : Collaborators.

Lemma list_ascii_of_string_app (a b : string) :
  list_ascii_of_string (a +:+ b)
  = (list_ascii_of_string a ++ list_ascii_of_string b)%list.
Proof.
  induction a as [|c a IH]; [reflexivity|].
  change (c :: list_ascii_of_string (a +:+ b)
          = c :: (list_ascii_of_string a ++ list_ascii_of_string b)%list).
  now f_equal.
Qed.

Lemma string_of_list_ascii_app (a b : list ascii) :
  string_of_list_ascii (a ++ b)
  = string_of_list_ascii a +:+ string_of_list_ascii b.
Proof.
  induction a as [|c a IH]; [reflexivity|].
  change (String c (string_of_list_ascii (a ++ b))
          = String c (string_of_list_ascii a +:+ string_of_list_ascii b)).
  now f_equal.
Qed.

Lemma joinpath_inj (dir a b : string) : dir // a = dir // b -> a = b.
Proof.
  unfold joinpath. intros E.
  apply String.app_inj in E. now apply String.app_inj in E.
Qed.

Lemma ends_with_app (a suffix : string) : ends_with suffix (a +:+ suffix) = true.
Proof.
  induction a as [|c a IH].
  - change ("" +:+ suffix) with suffix.
    destruct suffix; unfold ends_with; fold ends_with;
      now rewrite String.eqb_refl.
  - change (String c a +:+ suffix) with (String c (a +:+ suffix)).
    unfold ends_with; fold ends_with. rewrite IH. apply orb_true_r.
Qed.

Lemma string_app_assoc (a b c : string) : (a +:+ b) +:+ c = a +:+ (b +:+ c).
Proof.
  induction a as [|x a IH]; [reflexivity|].
  change (String x ((a +:+ b) +:+ c) = String x (a +:+ (b +:+ c))).
  now f_equal.
Qed.

Lemma ends_with_joinpath (dir entry : string) :
  ends_with entry (dir // entry) = true.
Proof.
  unfold joinpath. rewrite <- string_app_assoc. apply ends_with_app.
Qed.

(** The renamed table is [thermoml_archive.old.csv], next to the script. *)
Lemma old_csv_path :
  with_suffix (final_csv_path env) ".old.csv"
  = here env // "thermoml_archive.old.csv".
Proof.
  unfold with_suffix, final_csv_path, joinpath.
  rewrite !list_ascii_of_string_app, !rev_app_distr. cbn.
  rewrite rev_involutive, <- !app_assoc, string_of_list_ascii_app.
  rewrite string_of_list_ascii_of_string. reflexivity.
Qed.

Lemma download_not_csv : download_path env <> final_csv_path env.
Proof. intros E. apply joinpath_inj in E. discriminate. Qed.

Lemma old_csv_not_csv :
  with_suffix (final_csv_path env) ".old.csv" <> final_csv_path env.
Proof. rewrite old_csv_path. intros E. apply joinpath_inj in E. discriminate. Qed.

Lemma old_csv_not_download :
  with_suffix (final_csv_path env) ".old.csv" <> download_path env.
Proof. rewrite old_csv_path. intros E. apply joinpath_inj in E. discriminate. Qed.

Lemma meta_not_download : meta_path <> download_path env.
Proof.
  intros E. pose proof (ends_with_joinpath (here env) fname) as H.
  fold (download_path env) in H. rewrite <- E in H. discriminate.
Qed.

Lemma meta_not_csv : meta_path <> final_csv_path env.
Proof.
  intros E.
  pose proof (ends_with_joinpath (here env) "thermoml_archive.csv") as H.
  fold (final_csv_path env) in H. rewrite <- E in H. discriminate.
Qed.

End PathFacts.

(** * The download *)

Section Download.
Import requests.

Lemma iter_slices_concat bound (s : list byte) n :
  0 < n -> length s <= bound -> concat (iter_slices bound s n) = s.
Proof.
  intros Hn. revert s. induction bound as [|bound IH]; intros s Hlen.
  - destruct s; [reflexivity | cbn in Hlen; lia].
  - destruct s as [|b s]; [reflexivity|].
    cbn [iter_slices concat]. rewrite IH.
    + apply firstn_skipn.
    + rewrite length_skipn. cbn [length] in *. lia.
Qed.

Lemma iter_slices_bounded bound (s : list byte) n :
  Forall (fun chunk => length chunk <= n) (iter_slices bound s n).
Proof.
  revert s. induction bound as [|bound IH]; intros s; [constructor|].
  destruct s as [|b s]; [constructor|]. cbn [iter_slices].
  constructor; [|apply IH]. rewrite length_firstn. lia.
Qed.

(** Whatever [stream] was, the chunks are those of the body. *)
Lemma iter_content_respond body stream n :
  iter_content (respond body stream) n = iter_slices (length body) body n.
Proof. now destruct stream. Qed.

(** Without [stream=True] the response holds the whole body. *)
Lemma respond_buffers_body body :
  content (respond body false) = body
  /\ content_consumed (respond body false) = true
  /\ buffered (respond body false) = length body.
Proof. now repeat split. Qed.

Lemma respond_stream_buffers_nothing body :
  buffered (respond body true) = 0.
Proof. reflexivity. Qed.

End Download.

(** * The stages of the script, one by one *)

Section Stages.

Variable env : Collaborators.
Variables archive_pin csv_pin : string.

Local Abbreviation dl := (download_path env).
Local Abbreviation csv := (final_csv_path env).
Local Abbreviation old_csv := (with_suffix (final_csv_path env) ".old.csv").
Local Abbreviation sha := hashlib.sha256_oneshot.

Lemma write_chunks path chunks w old :
  fs w !! path = Some old ->
  for_each chunks tt (fun chunk _ => write path chunk) w
  = (Value tt, {| fs := <[path := (old ++ concat chunks)%list]> (fs w);
                  log := log w ++ map (EvWrite path) chunks |}).
Proof.
  revert w old. induction chunks as [|c cs IH]; intros w old Hold.
  - cbn [for_each ret concat map]. rewrite !app_nil_r, insert_id by exact Hold.
    now destruct w.
  - cbn [for_each]. unfold bind at 1. unfold write at 1.
    rewrite (IH _ (old ++ c)%list); cbn [fs log].
    + rewrite Hold. cbn [default]. rewrite insert_insert_eq.
      cbn [concat map]. now rewrite <- !app_assoc.
    + rewrite Hold. apply lookup_insert_eq.
Qed.

(** An archive that is already there is not fetched again. *)
Lemma get_raw_data_present w archive :
  fs w !! dl = Some archive ->
  get_raw_data env w
  = (Value tt, {| fs := fs w; log := log w ++ [EvExists dl true] |}).
Proof.
  intros H. unfold get_raw_data, bind, path_exists. now rewrite H.
Qed.

(** An absent archive is fetched and written chunk by chunk. *)
Lemma get_raw_data_absent w body :
  fs w !! dl = None ->
  http_body env (remote_data_path) = Some body ->
  get_raw_data env w
  = (Value tt,
     {| fs := <[dl := body]> (fs w);
        log := log w
               ++ [EvExists dl false;
                   EvGet remote_data_path (requests.respond body false);
                   EvCreate dl]
               ++ map (EvWrite dl)
                      (requests.iter_slices (length body) body chunk_size) |}).
Proof.
  intros Habsent Hbody.
  unfold get_raw_data, bind at 1, path_exists. rewrite Habsent. cbn [negb].
  unfold bind at 1, requests_get. rewrite Hbody. cbn [fs log].
  unfold bind at 1, open_wb. cbn [fs log].
  rewrite (write_chunks _ _ _ nil) by apply lookup_insert_eq. cbn [fs log].
  rewrite iter_content_respond, iter_slices_concat, insert_insert_eq;
    [|apply chunk_size_pos|lia].
  cbn [app]. now rewrite <- !app_assoc.
Qed.

Lemma get_raw_data_unreachable w :
  fs w !! dl = None ->
  http_body env (remote_data_path) = None ->
  get_raw_data env w
  = (Raised (ConnectionError remote_data_path),
     {| fs := fs w; log := log w ++ [EvExists dl false] |}).
Proof.
  intros Habsent Hbody.
  unfold get_raw_data, bind at 1, path_exists. rewrite Habsent. cbn [negb].
  unfold bind at 1, requests_get. now rewrite Hbody.
Qed.

Lemma file_digest_some path data w :
  fs w !! path = Some data ->
  file_digest path w
  = (Value (sha data),
     {| fs := fs w; log := log w ++ [EvDigest path (sha data)] |}).
Proof.
  intros H. unfold file_digest. now rewrite H, chunked_digest_open.
Qed.

Lemma file_digest_none path w :
  fs w !! path = None ->
  file_digest path w = (Raised (FileNotFoundError path), w).
Proof. intros H. unfold file_digest. now rewrite H. Qed.

Lemma check_checksum_ok w archive :
  fs w !! dl = Some archive ->
  sha archive = archive_pin ->
  check_checksum env archive_pin w
  = (Value tt, {| fs := fs w; log := log w ++ [EvDigest dl archive_pin] |}).
Proof.
  intros H E. unfold check_checksum, bind.
  rewrite (file_digest_some _ _ _ H), E, String.eqb_refl. reflexivity.
Qed.

Lemma check_checksum_mismatch w archive :
  fs w !! dl = Some archive ->
  sha archive <> archive_pin ->
  check_checksum env archive_pin w
  = (Raised (RuntimeError (checksum_error archive_pin (sha archive))),
     {| fs := fs w; log := log w ++ [EvDigest dl (sha archive)] |}).
Proof.
  intros H E. unfold check_checksum, bind.
  rewrite (file_digest_some _ _ _ H).
  apply String.eqb_neq in E. now rewrite E.
Qed.

Lemma check_existing_csv_absent w :
  fs w !! csv = None ->
  check_existing_csv env csv_pin w
  = (Value tt, {| fs := fs w; log := log w ++ [EvExists csv false] |}).
Proof.
  intros H. unfold check_existing_csv, bind, path_exists. now rewrite H.
Qed.

Lemma check_existing_csv_correct w table :
  fs w !! csv = Some table ->
  sha table = csv_pin ->
  check_existing_csv env csv_pin w
  = (Returned,
     {| fs := fs w;
        log := log w ++ [EvExists csv true; EvDigest csv csv_pin;
                         EvPrint (already_available env)] |}).
Proof.
  intros H E. unfold check_existing_csv, bind at 1, path_exists. rewrite H.
  unfold bind at 1. rewrite (file_digest_some _ table) by exact H.
  rewrite E, String.eqb_refl. cbn [negb fs log].
  unfold bind, print, emit, return_. cbn [fs log].
  now rewrite <- !app_assoc.
Qed.

Lemma check_existing_csv_stale w table :
  fs w !! csv = Some table ->
  sha table <> csv_pin ->
  check_existing_csv env csv_pin w
  = (Value tt,
     {| fs := <[old_csv := table]> (delete csv (fs w));
        log := log w ++ [EvExists csv true; EvDigest csv (sha table);
                         EvWarn old_csv_warning; EvRename csv old_csv] |}).
Proof.
  intros H E. unfold check_existing_csv, bind at 1, path_exists. rewrite H.
  unfold bind at 1. rewrite (file_digest_some _ table) by exact H.
  apply String.eqb_neq in E. rewrite E. cbn [negb fs log].
  unfold bind, warn, emit, rename. cbn [fs log]. rewrite H.
  now rewrite <- !app_assoc.
Qed.

End Stages.

(** * The conversion loops *)

Section Loops.

Variable env : Collaborators.

Local Abbreviation csv := (final_csv_path env).

Lemma scraped_nil w counts : scraped env w counts nil w counts.
Proof.
  split; cbn; auto; try lia. now rewrite app_nil_r.
Qed.

Lemma successes_app a b : successes (a ++ b) = successes a + successes b.
Proof. unfold successes. now rewrite List.filter_app, length_app. Qed.

Lemma failures_app a b : failures (a ++ b) = failures a + failures b.
Proof. unfold failures. now rewrite List.filter_app, length_app. Qed.

Lemma no_successes_no_rows evs : successes evs = 0 -> flat_map rows_of evs = nil.
Proof.
  unfold successes. induction evs as [|e evs IH]; [reflexivity|].
  destruct e; cbn; intros H; try discriminate; auto.
Qed.

Lemma scraped_trans w0 c0 evs1 w1 c1 evs2 w2 c2 :
  scraped env w0 c0 evs1 w1 c1 -> scraped env w1 c1 evs2 w2 c2 ->
  scraped env w0 c0 (evs1 ++ evs2) w2 c2.
Proof.
  intros [L1 E1 P1 F1 R1 T1] [L2 E2 P2 F2 R2 T2]. split.
  - now rewrite L2, L1, <- app_assoc.
  - now apply Forall_app.
  - rewrite successes_app. lia.
  - rewrite failures_app. lia.
  - intros path Hp. now rewrite R2, R1.
  - rewrite T2, T1, successes_app, flat_map_app.
    destruct (successes evs1) eqn:S1, (successes evs2) eqn:S2; cbn [Nat.eqb Nat.add].
    + reflexivity.
    + now rewrite (no_successes_no_rows evs1 S1).
    + now rewrite (no_successes_no_rows evs2 S2), app_nil_r.
    + cbn. now rewrite <- app_assoc.
Qed.

Lemma scraped_keeps_files w c evs w' c' path :
  scraped env w c evs w' c' -> is_Some (fs w !! path) -> is_Some (fs w' !! path).
Proof.
  intros [_ _ _ _ R T] H. destruct (decide (path = csv)) as [->|Hne].
  - rewrite T. destruct (successes evs =? 0); eauto.
  - now rewrite R.
Qed.

(** One file: exactly one event, and exactly one counter moves. *)
Lemma scrape_file_spec path counts w :
  is_Some (fs w !! path) ->
  exists e w' counts',
    scrape_file env path counts w = (Value counts', w')
    /\ record_file e = Some path
    /\ scraped env w counts [e] w' counts'.
Proof.
  intros [data Hdata].
  unfold scrape_file, bind at 1, open_r. rewrite Hdata.
  unfold try_except, bind, parse_to_csv. rewrite Hdata.
  destruct (thermopyl_to_csv env path data) as [rows|] eqn:Hparse.
  - exists (EvToCsv path csv rows). eexists. eexists.
    split; [reflexivity|]. split; [reflexivity|].
    split; cbn [fs log fst snd]; auto.
    + intros p Hp. now rewrite lookup_insert_ne.
    + rewrite lookup_insert_eq. cbn. now rewrite app_nil_r.
  - exists (EvParseFailed path). eexists. eexists.
    split; [reflexivity|]. split; [reflexivity|].
    split; cbn [fs log fst snd]; auto.
Qed.

(** A failing file does nothing but move the failure counter. *)
Lemma scrape_file_failure path counts w data :
  fs w !! path = Some data ->
  thermopyl_to_csv env path data = None ->
  scrape_file env path counts w
  = (Value (counts.1, counts.2 + 1),
     {| fs := fs w; log := log w ++ [EvParseFailed path] |}).
Proof.
  intros Hdata Hparse.
  unfold scrape_file, bind at 1, open_r. rewrite Hdata.
  unfold try_except, bind, parse_to_csv. now rewrite Hdata, Hparse.
Qed.

Lemma events_of_files (P : string -> Prop) evs paths :
  map record_file evs = map Some paths ->
  Forall P paths ->
  Forall (fun e => exists path, record_file e = Some path /\ P path) evs.
Proof.
  revert paths. induction evs as [|e evs IH]; intros [|p ps] E H;
    try discriminate; [constructor|].
  cbn [map] in E. injection E as Ee Eevs.
  apply Forall_cons in H as [Hp Hps]. constructor; eauto.
Qed.

(** The loop over the files of one directory never stops early. *)
Lemma scrape_directory_spec paths counts w :
  Forall (fun path => is_Some (fs w !! path)) paths ->
  exists evs w' counts',
    for_each paths counts (scrape_file env) w = (Value counts', w')
    /\ map record_file evs = map Some paths
    /\ scraped env w counts evs w' counts'.
Proof.
  revert counts w. induction paths as [|path paths IH]; intros counts w Hall.
  - exists nil, w, counts.
    split; [reflexivity|]. split; [reflexivity | apply scraped_nil].
  - apply Forall_cons in Hall as [Hpath Hall].
    destruct (scrape_file_spec path counts w Hpath) as (e & w1 & c1 & E1 & R1 & S1).
    destruct (IH c1 w1) as (evs & w2 & c2 & E2 & R2 & S2).
    { eapply Forall_impl; [exact Hall|]. intros p. cbn.
      now apply (scraped_keeps_files _ _ _ _ _ _ S1). }
    exists (e :: evs), w2, c2. split; [|split].
    + cbn [for_each]. unfold bind. now rewrite E1.
    + cbn [map]. now rewrite R1, R2.
    + exact (scraped_trans _ _ _ _ _ _ _ _ S1 S2).
Qed.

Lemma glob_paths_exist (files : gmap string (list byte)) dir ext path :
  In path (glob_paths files dir ext) -> is_Some (files !! path).
Proof.
  unfold glob_paths. rewrite filter_In, in_map_iff.
  intros [[[p data] [<- Hin]] _].
  apply list_elem_of_In, elem_of_map_to_list in Hin. cbn. eauto.
Qed.

Lemma glob_paths_match (files : gmap string (list byte)) dir ext path :
  In path (glob_paths files dir ext) -> glob_match dir ext path = true.
Proof. unfold glob_paths. rewrite filter_In. tauto. Qed.

(** The directories in turn: the loops always run to their end. *)
Lemma scrape_dois_spec dois counts w :
  exists evs w' counts',
    for_each dois counts
      (fun doi counts =>
         paths <- glob (here env // doi) ".xml" ;;
         for_each paths counts (scrape_file env)) w
    = (Value counts', w')
    /\ Forall (enumerated_in env dois) evs
    /\ scraped env w counts evs w' counts'.
Proof.
  revert counts w. induction dois as [|doi dois IH]; intros counts w.
  - exists nil, w, counts.
    split; [reflexivity|]. split; [constructor | apply scraped_nil].
  - pose (paths := glob_paths (fs w) (here env // doi) ".xml").
    destruct (scrape_directory_spec paths counts w)
      as (evs1 & w1 & c1 & E1 & R1 & S1).
    { apply Forall_forall. intros p Hp.
      apply list_elem_of_In in Hp. now apply glob_paths_exist in Hp. }
    destruct (IH c1 w1) as (evs2 & w2 & c2 & E2 & G2 & S2).
    exists (evs1 ++ evs2), w2, c2. split; [|split].
    + cbn [for_each]. unfold bind at 1. unfold bind at 1. unfold glob at 1.
      fold paths. now rewrite E1.
    + apply Forall_app. split.
      * eapply Forall_impl;
          [apply (events_of_files
                    (fun p => glob_match (here env // doi) ".xml" p = true)
                    evs1 paths R1)|].
        -- apply Forall_forall. intros p Hp.
           apply list_elem_of_In in Hp. now apply glob_paths_match in Hp.
        -- intros e (p & Hr & Hm). exists p, doi. split; [easy|].
           split; [now left | easy].
      * eapply Forall_impl; [exact G2|]. cbn.
        intros e (p & d & Hr & Hd & Hm). exists p, d.
        split; [easy|]. split; [now right | easy].
    + exact (scraped_trans _ _ _ _ _ _ _ _ S1 S2).
Qed.

Lemma scrape_files_spec w :
  exists evs w' counts,
    scrape_files env w = (Value counts, w')
    /\ Forall (enumerated_in env root_dois) evs
    /\ scraped env w (0, 0) evs w' counts.
Proof. apply scrape_dois_spec. Qed.

(** Each enumerated file is counted once, as a success or as a failure. *)
Lemma successes_failures evs :
  Forall (fun e => converted e || parse_failed e = true) evs ->
  successes evs + failures evs = length evs.
Proof.
  unfold successes, failures. induction 1 as [|e evs He _ IH]; [reflexivity|].
  destruct e; cbn in *; try discriminate; lia.
Qed.

End Loops.

(** * The log only grows *)

Lemma extends_refl w : extends w w.
Proof. exists nil. now rewrite app_nil_r. Qed.

Lemma extends_trans w1 w2 w3 : extends w1 w2 -> extends w2 w3 -> extends w1 w3.
Proof.
  intros [a Ha] [b Hb]. exists (a ++ b). now rewrite Hb, Ha, <- app_assoc.
Qed.

Lemma extends_log w evs files : extends w {| fs := files; log := log w ++ evs |}.
Proof. now exists evs. Qed.

(** * The rest of the script *)

Section Runs.

Variable env : Collaborators.
Variables archive_pin csv_pin : string.

Local Abbreviation dl := (download_path env).
Local Abbreviation csv := (final_csv_path env).
Local Abbreviation old_csv := (with_suffix (final_csv_path env) ".old.csv").
Local Abbreviation sha := hashlib.sha256_oneshot.
Local Abbreviation run := (pipeline env archive_pin csv_pin).

Lemma extract_archive_ok w archive members :
  fs w !! dl = Some archive ->
  tar_members env archive = Some members ->
  extract_archive env w
  = (Value tt, {| fs := unpack (here env) (fs w) members;
                  log := log w ++ [EvExtract dl (here env)] |}).
Proof.
  intros H E. unfold extract_archive, extractall. now rewrite H, E.
Qed.

Lemma extract_archive_not_tar w archive :
  fs w !! dl = Some archive ->
  tar_members env archive = None ->
  extract_archive env w = (Raised (ReadError dl), w).
Proof.
  intros H E. unfold extract_archive, extractall. now rewrite H, E.
Qed.

(** After the loops: the table is missing, matches, or does not match. *)
Lemma report_missing counts w :
  fs w !! csv = None ->
  report_and_describe env csv_pin counts w
  = (Raised (FileNotFoundError csv),
     {| fs := fs w; log := log w ++ [EvPrint (ingested counts.1 counts.2)] |}).
Proof.
  intros H. unfold report_and_describe, bind at 1, print, emit.
  unfold bind at 1, check_final_csv, bind at 1.
  now rewrite file_digest_none.
Qed.

Lemma report_match counts w table :
  fs w !! csv = Some table ->
  sha table = csv_pin ->
  report_and_describe env csv_pin counts w
  = (Value tt,
     {| fs := <[meta_path := yaml_dump env (make_meta counts.1)]> (fs w);
        log := log w ++ [EvPrint (ingested counts.1 counts.2);
                         EvDigest csv csv_pin;
                         EvYamlDump meta_path (make_meta counts.1)] |}).
Proof.
  intros H E. unfold report_and_describe, bind at 1, print, emit.
  unfold bind at 1, check_final_csv, bind at 1.
  rewrite (file_digest_some _ table) by exact H.
  rewrite E, String.eqb_refl. cbn [negb ret fs log].
  unfold yaml_dump_to. cbn [fs log]. now rewrite <- !app_assoc.
Qed.

Lemma report_mismatch counts w table :
  fs w !! csv = Some table ->
  sha table <> csv_pin ->
  report_and_describe env csv_pin counts w
  = (Value tt,
     {| fs := <[meta_path := yaml_dump env (make_meta counts.1)]> (fs w);
        log := log w ++ [EvPrint (ingested counts.1 counts.2);
                         EvDigest csv (sha table);
                         EvWarn (final_csv_warning csv_pin (sha table));
                         EvYamlDump meta_path (make_meta counts.1)] |}).
Proof.
  intros H E. unfold report_and_describe, bind at 1, print, emit.
  unfold bind at 1, check_final_csv, bind at 1.
  rewrite (file_digest_some _ table) by exact H.
  apply String.eqb_neq in E. rewrite E. cbn [negb fs log].
  unfold warn, emit, yaml_dump_to. cbn [fs log]. now rewrite <- !app_assoc.
Qed.

(** The body is the front part followed by the rebuild. *)
Lemma pipeline_front w :
  run w = match front env archive_pin csv_pin w with
          | (Value _, w') => rebuild env csv_pin w'
          | (Returned, w') => (Returned, w')
          | (Raised e, w') => (Raised e, w')
          | (OutOfFuel, w') => (OutOfFuel, w')
          end.
Proof.
  unfold pipeline, front, bind.
  destruct (get_raw_data env w) as [[u1| | |] w1]; try reflexivity.
  destruct (check_checksum env archive_pin w1) as [[u2| | |] w2]; reflexivity.
Qed.

Lemma rebuild_steps w :
  rebuild env csv_pin w
  = match extract_archive env w with
    | (Value _, w1) =>
        match scrape_files env w1 with
        | (Value counts, w2) => report_and_describe env csv_pin counts w2
        | (Returned, w2) => (Returned, w2)
        | (Raised e, w2) => (Raised e, w2)
        | (OutOfFuel, w2) => (OutOfFuel, w2)
        end
    | (Returned, w1) => (Returned, w1)
    | (Raised e, w1) => (Raised e, w1)
    | (OutOfFuel, w1) => (OutOfFuel, w1)
    end.
Proof. reflexivity. Qed.

Lemma get_raw_data_spec w archive :
  local_archive env (fs w) = Some archive ->
  get_raw_data env w
  = (Value tt, {| fs := <[dl := archive]> (fs w);
                  log := log w ++ fetch_log env (fs w) archive |}).
Proof.
  unfold local_archive, fetch_log.
  destruct (fs w !! dl) as [a|] eqn:H; intros E.
  - injection E as ->. rewrite (get_raw_data_present _ _ _ H).
    now rewrite insert_id.
  - now rewrite (get_raw_data_absent _ _ _ H E).
Qed.

Lemma fetch_log_quiet files archive :
  Forall (fun e => writes_to csv e = false /\ asks_exists csv e = false
                   /\ is_extract e = false /\ is_yaml_dump e = false
                   /\ converted e = false /\ parse_failed e = false
                   /\ writes_to meta_path e = false)
         (fetch_log env files archive).
Proof.
  pose proof (download_not_csv env) as Hne. apply String.eqb_neq in Hne.
  assert (String.eqb dl meta_path = false) as Hm.
  { apply String.eqb_neq. apply not_eq_sym, meta_not_download. }
  unfold fetch_log. destruct (files !! dl).
  - apply List.Forall_cons; [|apply List.Forall_nil]. cbn. now rewrite Hne.
  - apply Forall_app. split.
    + repeat (apply List.Forall_cons; [cbn; now rewrite ?Hne, ?Hm|]).
      apply List.Forall_nil.
    + apply Forall_forall. intros e He.
      apply list_elem_of_In, in_map_iff in He as (c & <- & _).
      cbn. now rewrite Hne, Hm.
Qed.

Lemma lookup_csv_after_fetch (files : gmap string (list byte)) archive :
  <[dl := archive]> files !! csv = files !! csv.
Proof. apply lookup_insert_ne, download_not_csv. Qed.

(** The front part, case by case. *)
Lemma front_unreachable w :
  local_archive env (fs w) = None ->
  front env archive_pin csv_pin w
  = (Raised (ConnectionError remote_data_path),
     {| fs := fs w; log := log w ++ [EvExists dl false] |}).
Proof.
  unfold local_archive. destruct (fs w !! dl) eqn:H; [discriminate|].
  intros E. unfold front, bind at 1.
  now rewrite (get_raw_data_unreachable _ _ H E).
Qed.

Lemma front_mismatch w archive :
  local_archive env (fs w) = Some archive ->
  sha archive <> archive_pin ->
  front env archive_pin csv_pin w
  = (Raised (RuntimeError (checksum_error archive_pin (sha archive))),
     {| fs := <[dl := archive]> (fs w);
        log := log w ++ fetch_log env (fs w) archive
                     ++ [EvDigest dl (sha archive)] |}).
Proof.
  intros Ha Hne. unfold front, bind at 1. rewrite (get_raw_data_spec _ _ Ha).
  unfold bind at 1.
  rewrite (check_checksum_mismatch _ _ _ archive); cbn [fs log];
    [now rewrite <- app_assoc | apply lookup_insert_eq | exact Hne].
Qed.

Lemma front_fresh w archive :
  local_archive env (fs w) = Some archive ->
  sha archive = archive_pin ->
  fs w !! csv = None ->
  front env archive_pin csv_pin w
  = (Value tt,
     {| fs := <[dl := archive]> (fs w);
        log := log w ++ fetch_log env (fs w) archive
                     ++ [EvDigest dl archive_pin; EvExists csv false] |}).
Proof.
  intros Ha Hpin Hcsv. unfold front, bind at 1.
  rewrite (get_raw_data_spec _ _ Ha). unfold bind at 1.
  rewrite (check_checksum_ok _ _ _ archive); cbn [fs log];
    [|apply lookup_insert_eq | exact Hpin].
  rewrite check_existing_csv_absent; cbn [fs log];
    [|now rewrite lookup_csv_after_fetch].
  now rewrite <- !app_assoc.
Qed.

Lemma front_correct w archive table :
  local_archive env (fs w) = Some archive ->
  sha archive = archive_pin ->
  fs w !! csv = Some table ->
  sha table = csv_pin ->
  front env archive_pin csv_pin w
  = (Returned,
     {| fs := <[dl := archive]> (fs w);
        log := log w ++ fetch_log env (fs w) archive
                     ++ [EvDigest dl archive_pin; EvExists csv true;
                         EvDigest csv csv_pin;
                         EvPrint (already_available env)] |}).
Proof.
  intros Ha Hpin Hcsv Htable. unfold front, bind at 1.
  rewrite (get_raw_data_spec _ _ Ha). unfold bind at 1.
  rewrite (check_checksum_ok _ _ _ archive); cbn [fs log];
    [|apply lookup_insert_eq | exact Hpin].
  rewrite (check_existing_csv_correct _ _ _ table); cbn [fs log];
    [|now rewrite lookup_csv_after_fetch | exact Htable].
  now rewrite <- !app_assoc.
Qed.

Lemma front_stale w archive table :
  local_archive env (fs w) = Some archive ->
  sha archive = archive_pin ->
  fs w !! csv = Some table ->
  sha table <> csv_pin ->
  front env archive_pin csv_pin w
  = (Value tt,
     {| fs := <[old_csv := table]> (delete csv (<[dl := archive]> (fs w)));
        log := log w ++ fetch_log env (fs w) archive
                     ++ [EvDigest dl archive_pin; EvExists csv true;
                         EvDigest csv (sha table);
                         EvWarn old_csv_warning; EvRename csv old_csv] |}).
Proof.
  intros Ha Hpin Hcsv Htable. unfold front, bind at 1.
  rewrite (get_raw_data_spec _ _ Ha). unfold bind at 1.
  rewrite (check_checksum_ok _ _ _ archive); cbn [fs log];
    [|apply lookup_insert_eq | exact Hpin].
  rewrite (check_existing_csv_stale _ _ _ table); cbn [fs log];
    [|now rewrite lookup_csv_after_fetch | exact Htable].
  now rewrite <- !app_assoc.
Qed.

(** The rebuild always runs its loops to the end once the archive unpacks. *)
Lemma rebuild_runs_loops w archive members :
  fs w !! dl = Some archive ->
  tar_members env archive = Some members ->
  exists evs w2 counts,
    let w1 := {| fs := unpack (here env) (fs w) members;
                 log := log w ++ [EvExtract dl (here env)] |} in
    scrape_files env w1 = (Value counts, w2)
    /\ Forall (enumerated_in env root_dois) evs
    /\ scraped env w1 (0, 0) evs w2 counts
    /\ rebuild env csv_pin w = report_and_describe env csv_pin counts w2.
Proof.
  intros H E.
  destruct (scrape_files_spec env
              {| fs := unpack (here env) (fs w) members;
                 log := log w ++ [EvExtract dl (here env)] |})
    as (evs & w2 & counts & Hrun & Henum & Hs).
  exists evs, w2, counts. cbn zeta.
  split; [exact Hrun|]. split; [exact Henum|]. split; [exact Hs|].
  now rewrite rebuild_steps, (extract_archive_ok _ _ _ H E), Hrun.
Qed.

Lemma report_extends counts w o w' :
  report_and_describe env csv_pin counts w = (o, w') -> extends w w'.
Proof.
  destruct (fs w !! csv) as [table|] eqn:H.
  - destruct (String.eqb_spec (sha table) csv_pin) as [E|E].
    + rewrite (report_match _ _ _ H E). intros [= <- <-]. apply extends_log.
    + rewrite (report_mismatch _ _ _ H E). intros [= <- <-]. apply extends_log.
  - rewrite (report_missing _ _ H). intros [= <- <-]. apply extends_log.
Qed.

Lemma rebuild_extends w o w' :
  rebuild env csv_pin w = (o, w') -> extends w w'.
Proof.
  rewrite rebuild_steps. unfold extract_archive, extractall.
  destruct (fs w !! dl) as [archive|] eqn:H;
    [|intros [= <- <-]; apply extends_refl].
  destruct (tar_members env archive) as [members|] eqn:E;
    [|intros [= <- <-]; apply extends_refl].
  destruct (scrape_files_spec env
              {| fs := unpack (here env) (fs w) members;
                 log := log w ++ [EvExtract dl (here env)] |})
    as (evs & w2 & counts & -> & _ & Hs).
  intros Hrep. apply report_extends in Hrep.
  eapply extends_trans; [|exact Hrep].
  eapply extends_trans; [apply (extends_log w [EvExtract dl (here env)])|].
  exists evs. apply Hs.
Qed.

Lemma meta_not_old_csv : meta_path <> old_csv.
Proof.
  rewrite old_csv_path. intros E.
  pose proof (ends_with_joinpath (here env) "thermoml_archive.old.csv") as H.
  rewrite <- E in H. discriminate.
Qed.

Lemma unpack_frame dest (files : gmap string (list byte)) members path :
  (forall member, In member members -> dest // member.1 <> path) ->
  unpack dest files members !! path = files !! path.
Proof.
  unfold unpack. revert files.
  induction members as [|m ms IH]; intros files Hfree; [reflexivity|].
  cbn [fold_left]. rewrite IH by (intros m' Hm'; apply Hfree; now right).
  apply lookup_insert_ne, Hfree. now left.
Qed.

Lemma report_frame counts w o w' path :
  report_and_describe env csv_pin counts w = (o, w') ->
  path <> meta_path ->
  fs w' !! path = fs w !! path.
Proof.
  intros Hrun Hne. destruct (fs w !! csv) as [table|] eqn:H.
  - destruct (String.eqb_spec (sha table) csv_pin) as [E|E].
    + rewrite (report_match _ _ _ H E) in Hrun. injection Hrun as <- <-.
      now apply lookup_insert_ne.
    + rewrite (report_mismatch _ _ _ H E) in Hrun. injection Hrun as <- <-.
      now apply lookup_insert_ne.
  - rewrite (report_missing _ _ H) in Hrun. now injection Hrun as <- <-.
Qed.

(** An event with property [P] cannot sit inside a stretch without it. *)
Lemma split_after_quiet (P : Event -> bool) quiet rest before x after :
  Forall (fun e => P e = false) quiet ->
  P x = true ->
  quiet ++ rest = before ++ x :: after ->
  exists mid, before = quiet ++ mid.
Proof.
  revert before. induction quiet as [|q quiet IH]; intros before Hq Hx E.
  - now exists before.
  - apply Forall_cons in Hq as [Hq Hquiet].
    destruct before as [|b before]; cbn in E; injection E as -> E.
    + congruence.
    + destruct (IH before Hquiet Hx E) as [mid ->]. now exists mid.
Qed.

End Runs.

(** * The digest is a lowercase hexadecimal string *)

Section Hex.
Import hashlib.

Lemma hex_digit_lowercase z : lowercase_hex (hex_digit z).
Proof.
  unfold lowercase_hex, hex_digit. apply nth_In. cbn [list_ascii_of_string length].
  change 15%Z with (Z.ones 4). rewrite Z.land_ones by lia.
  pose proof (Z.mod_pos_bound z (2 ^ 4)). lia.
Qed.

Lemma hex_word_lowercase w : Forall lowercase_hex (hex_word w).
Proof.
  unfold hex_word. cbn [map].
  repeat (apply List.Forall_cons; [apply hex_digit_lowercase|]).
  apply List.Forall_nil.
Qed.

Lemma string_of_list_ascii_length l :
  String.length (string_of_list_ascii l) = length l.
Proof. induction l as [|c l IH]; cbn; congruence. Qed.

Lemma hex_regs_shape r :
  String.length (hex_regs r) = 64
  /\ Forall lowercase_hex (list_ascii_of_string (hex_regs r)).
Proof.
  unfold hex_regs. split.
  - rewrite string_of_list_ascii_length. reflexivity.
  - rewrite list_ascii_of_string_of_list_ascii. cbn [flat_map].
    repeat (apply Forall_app; split; [apply hex_word_lowercase|]).
    apply List.Forall_nil.
Qed.

Lemma sha256_oneshot_shape msg :
  String.length (sha256_oneshot msg) = 64
  /\ Forall lowercase_hex (list_ascii_of_string (sha256_oneshot msg)).
Proof. apply hex_regs_shape. Qed.

End Hex.

(** * Test vectors

    The hash object against digests computed with [sha256sum], on the text
    [abc] and on streams of zero bytes of the lengths around one chunk. *)

Example sha256_abc :
  hashlib.sha256_oneshot (bytes_of_string "abc")
  = "ba7816bf8f01cfea414140de5dae2223b00361a396177a9cb410ff61f20015ad".
Proof. vm_compute. reflexivity. Qed.

Example chunked_digest_of_0_bytes :
  _sha256_chunked_file_digest (open_rb (zeros 0))
  = Some "e3b0c44298fc1c149afbf4c8996fb92427ae41e4649b934ca495991b7852b855".
Proof. vm_compute. reflexivity. Qed.

Example chunked_digest_of_1_byte :
  _sha256_chunked_file_digest (open_rb (zeros 1))
  = Some "6e340b9cffb37a989ca544e6bb780a2c78901d3fb33738768511a30617afa01d".
Proof. vm_compute. reflexivity. Qed.

Example chunked_digest_of_8191_bytes :
  _sha256_chunked_file_digest (open_rb (zeros 8191))
  = Some "ded7e73bae26db73b29a51bca3cd2d1d6906107d889775f610f0ce63c2089365".
Proof. vm_compute. reflexivity. Qed.

Example chunked_digest_of_8192_bytes :
  _sha256_chunked_file_digest (open_rb (zeros 8192))
  = Some "9f1dcbc35c350d6027f98be0f5c8b43b42ca52b7604459c0c42be3aa88913d47".
Proof. vm_compute. reflexivity. Qed.

Example chunked_digest_of_8193_bytes :
  _sha256_chunked_file_digest (open_rb (zeros 8193))
  = Some "b1fb0079828ab653919011a9f8cfdd3704387eb08e1dc971155b33c03e0da1ef".
Proof. vm_compute. reflexivity. Qed.

Example chunked_digest_of_100000_bytes :
  _sha256_chunked_file_digest (open_rb (zeros 100000))
  = Some "9192c25b734fcbadbe32dadc28089c60db0e39f90cc20ce2e5733f57261acc0c".
Proof. vm_compute. reflexivity. Qed.

Example chunks_of_8193_bytes :
  map (fun chunk => Z.of_nat (length chunk))
      (chunks_read 3 (open_rb (zeros 8193))) = [8192%Z; 1%Z].
Proof. vm_compute. reflexivity. Qed.

(** * The claims *)

Section Claims.

Local Abbreviation sha := hashlib.sha256_oneshot.

(** C1. For every finite byte stream the chunked digest function reads
    chunks of 8192 bytes until the stream is exhausted (every chunk but the
    last is full, none is empty, together they are the stream), feeds each
    to the incremental SHA-256 object, and returns the same lowercase
    hexadecimal digest as a single-shot SHA-256 of the whole byte sequence,
    whatever the length (0, 1, 8191, 8192, 8193, 100000, ...). *)
Theorem chunked_digest_is_single_shot (data : list byte) :
  let fp := open_rb data in
  let chunks := chunks_read (S (length data)) fp in
  _sha256_chunked_file_digest fp = Some (sha data)
  /\ hashlib.hexdigest (hashlib.update hashlib.sha256 data) = sha data
  /\ (exists fp',
        digest_loop (S (length data)) hashlib.sha256 fp
        = Some (fold_left hashlib.update chunks hashlib.sha256, fp')
        /\ unread fp' = nil)
  /\ concat chunks = data
  /\ Forall (fun chunk => 0 < length chunk <= chunk_size) chunks
  /\ (forall i chunk, chunks !! i = Some chunk -> S i < length chunks ->
                      length chunk = chunk_size)
  /\ Z.of_nat chunk_size = 8192%Z
  /\ String.length (sha data) = 64
  /\ Forall lowercase_hex (list_ascii_of_string (sha data)).
Proof.
  cbn zeta.
  assert (Hfuel : length (unread (open_rb data)) < S (length data)).
  { change (unread (open_rb data)) with data. lia. }
  split; [apply chunked_digest_open|].
  split. { rewrite <- hashlib_facts.fed_nil, hashlib_facts.update_fed.
           apply hashlib_facts.hexdigest_fed. }
  split; [now apply digest_loop_fold|].
  split; [now rewrite chunks_read_concat|].
  split; [apply chunks_read_sizes|].
  split; [apply chunks_read_sizes|].
  split; [unfold chunk_size; lia|].
  apply sha256_oneshot_shape.
Qed.

(** C2. In every run in which the digest computed for the local archive
    differs from the pinned constant, the script stops with a
    [RuntimeError] whose message carries the expected and the received
    digest; nothing is extracted or converted, and the output table is
    neither created nor modified. *)
Theorem archive_mismatch_is_fatal env archive_pin csv_pin files archive :
  local_archive env files = Some archive ->
  sha archive <> archive_pin ->
  exists w,
    pipeline env archive_pin csv_pin (start files)
    = (Raised (RuntimeError (checksum_error archive_pin (sha archive))), w)
    /\ (exists before between,
          checksum_error archive_pin (sha archive)
          = before +:+ archive_pin +:+ between +:+ sha archive)
    /\ Forall (fun e => is_extract e = false /\ converted e = false
                        /\ writes_to (final_csv_path env) e = false) (log w)
    /\ fs w !! final_csv_path env = files !! final_csv_path env.
Proof.
  intros Ha Hne. eexists. split; [|split; [|split]].
  - rewrite pipeline_front.
    now rewrite (front_mismatch env archive_pin csv_pin (start files) archive Ha Hne).
  - exists ("Downloaded file did not match expected checksum -- "
            +:+ "either a new version has been released or something has gone wrong!"
            +:+ nl +:+ "Expected: "), (nl +:+ "Received: ").
    reflexivity.
  - cbn [log start app]. apply Forall_app. split.
    + eapply Forall_impl; [apply fetch_log_quiet|]. cbn. tauto.
    + repeat constructor.
  - cbn [fs start]. apply lookup_csv_after_fetch.
Qed.

Lemma archive_mismatch_is_fatal_witness :
  local_archive (Toy.env Toy.mixed) ∅ = Some Toy.archive
  /\ exists w,
       get_and_transform_data (Toy.env Toy.mixed) (start ∅)
       = (Raised (RuntimeError
                    (checksum_error sha256_checksum (sha Toy.archive))), w).
Proof.
  split; [reflexivity|].
  destruct (archive_mismatch_is_fatal (Toy.env Toy.mixed) sha256_checksum
              final_expected_csv_checksum ∅ Toy.archive)
    as (w & Hrun & _); [reflexivity | vm_compute; discriminate |].
  exists w. exact Hrun.
Defined.

(** C3. In every run in which the archive passes its check and the output
    table exists with the pinned final digest, the script reports that the
    table is already there and returns: nothing is extracted or converted,
    the table keeps its bytes, and running the script again on the result
    changes nothing. *)
Theorem correct_output_short_circuits env archive_pin csv_pin files archive table :
  local_archive env files = Some archive ->
  sha archive = archive_pin ->
  files !! final_csv_path env = Some table ->
  sha table = csv_pin ->
  exists w,
    pipeline env archive_pin csv_pin (start files) = (Returned, w)
    /\ last (log w) = Some (EvPrint (already_available env))
    /\ Forall (fun e => is_extract e = false /\ converted e = false
                        /\ parse_failed e = false
                        /\ writes_to (final_csv_path env) e = false) (log w)
    /\ fs w !! final_csv_path env = Some table
    /\ exists w',
         pipeline env archive_pin csv_pin (start (fs w)) = (Returned, w')
         /\ fs w' = fs w.
Proof.
  intros Ha Hpin Hcsv Htable. eexists. split; [|split; [|split; [|split]]].
  - rewrite pipeline_front.
    now rewrite (front_correct env archive_pin csv_pin (start files)
                   archive table Ha Hpin Hcsv Htable).
  - cbn [log start app]. rewrite last_app. reflexivity.
  - cbn [log start app]. apply Forall_app. split.
    + eapply Forall_impl; [apply fetch_log_quiet|]. cbn. tauto.
    + repeat constructor.
  - cbn [fs start]. now rewrite lookup_csv_after_fetch.
  - eexists. split.
    + rewrite pipeline_front.
      rewrite (front_correct env archive_pin csv_pin _ archive table);
        [reflexivity | | exact Hpin | | exact Htable]; cbn [fs start].
      * unfold local_archive. now rewrite lookup_insert_eq.
      * now rewrite lookup_csv_after_fetch.
    + cbn [fs start]. apply insert_insert_eq.
Qed.

Lemma correct_output_short_circuits_witness :
  sha Toy.archive = Toy.archive_pin
  /\ sha Toy.table = Toy.table_pin
  /\ exists w,
       pipeline (Toy.env Toy.mixed) Toy.archive_pin Toy.table_pin
                (start (Toy.with_table Toy.table)) = (Returned, w)
       /\ fs w !! "/repo/thermoml_archive.csv" = Some Toy.table.
Proof.
  split; [vm_compute; reflexivity|]. split; [vm_compute; reflexivity|].
  destruct (correct_output_short_circuits (Toy.env Toy.mixed) Toy.archive_pin
              Toy.table_pin (Toy.with_table Toy.table) Toy.archive Toy.table)
    as (w & Hrun & _ & _ & Hcsv & _);
    [reflexivity | vm_compute; reflexivity | reflexivity
    | vm_compute; reflexivity |].
  exists w. split; [exact Hrun | exact Hcsv].
Defined.

(** C9. A run that returns early because the existing output table has the
    pinned final digest writes no metadata: no YAML dump happens and
    [meta.yaml] is neither created nor changed. *)
Theorem early_return_writes_no_metadata env archive_pin csv_pin files archive table :
  local_archive env files = Some archive ->
  sha archive = archive_pin ->
  files !! final_csv_path env = Some table ->
  sha table = csv_pin ->
  exists w,
    pipeline env archive_pin csv_pin (start files) = (Returned, w)
    /\ Forall (fun e => is_yaml_dump e = false /\ writes_to meta_path e = false)
              (log w)
    /\ fs w !! meta_path = files !! meta_path.
Proof.
  intros Ha Hpin Hcsv Htable. eexists. split; [|split].
  - rewrite pipeline_front.
    now rewrite (front_correct env archive_pin csv_pin (start files)
                   archive table Ha Hpin Hcsv Htable).
  - cbn [log start app]. apply Forall_app. split.
    + eapply Forall_impl; [apply fetch_log_quiet|]. cbn. tauto.
    + repeat (apply List.Forall_cons; [now split|]). apply List.Forall_nil.
  - cbn [fs start]. apply lookup_insert_ne. apply not_eq_sym, meta_not_download.
Qed.

Lemma early_return_writes_no_metadata_witness :
  sha Toy.archive = Toy.archive_pin
  /\ sha Toy.table = Toy.table_pin
  /\ exists w,
       pipeline (Toy.env Toy.mixed) Toy.archive_pin Toy.table_pin
                (start (Toy.with_table Toy.table)) = (Returned, w)
       /\ fs w !! meta_path = None.
Proof.
  split; [vm_compute; reflexivity|]. split; [vm_compute; reflexivity|].
  destruct (early_return_writes_no_metadata (Toy.env Toy.mixed) Toy.archive_pin
              Toy.table_pin (Toy.with_table Toy.table) Toy.archive Toy.table)
    as (w & Hrun & _ & Hmeta);
    [reflexivity | vm_compute; reflexivity | reflexivity
    | vm_compute; reflexivity |].
  exists w. split; [exact Hrun | exact Hmeta].
Defined.

(** C5. In every run in which the archive passes its check and the output
    table exists with a digest other than the pinned final one, the old
    table is renamed to [thermoml_archive.old.csv] with its bytes unchanged
    before anything is extracted or written, and the run goes on with the
    rebuild instead of stopping: when the archive unpacks, the extraction is
    the next thing that happens. *)
Theorem stale_output_is_renamed env archive_pin csv_pin files archive table :
  local_archive env files = Some archive ->
  sha archive = archive_pin ->
  files !! final_csv_path env = Some table ->
  sha table <> csv_pin ->
  let old := here env // "thermoml_archive.old.csv" in
  exists w1,
    front env archive_pin csv_pin (start files) = (Value tt, w1)
    /\ pipeline env archive_pin csv_pin (start files) = rebuild env csv_pin w1
    /\ last (log w1) = Some (EvRename (final_csv_path env) old)
    /\ Forall (fun e => is_extract e = false /\ converted e = false
                        /\ is_yaml_dump e = false) (removelast (log w1))
    /\ fs w1 !! old = Some table
    /\ fs w1 !! final_csv_path env = None
    /\ forall members,
         tar_members env archive = Some members ->
         exists out w2 later,
           pipeline env archive_pin csv_pin (start files) = (out, w2)
           /\ log w2 = log w1 ++ EvExtract (download_path env) (here env) :: later
           /\ ((forall member, In member members -> here env // member.1 <> old) ->
               fs w2 !! old = Some table).
Proof.
  intros Ha Hpin Hcsv Htable old.
  pose proof (front_stale env archive_pin csv_pin (start files) archive table
                Ha Hpin Hcsv Htable) as Hfront.
  rewrite (old_csv_path env) in Hfront. fold old in Hfront.
  eexists. split; [exact Hfront|].
  split; [now rewrite pipeline_front, Hfront|].
  cbn [fs log start app].
  split; [rewrite last_app; reflexivity|].
  split.
  { change [EvDigest (download_path env) archive_pin;
            EvExists (final_csv_path env) true;
            EvDigest (final_csv_path env) (sha table);
            EvWarn old_csv_warning; EvRename (final_csv_path env) old]
      with ([EvDigest (download_path env) archive_pin;
             EvExists (final_csv_path env) true;
             EvDigest (final_csv_path env) (sha table);
             EvWarn old_csv_warning] ++ [EvRename (final_csv_path env) old]).
    rewrite app_assoc, removelast_last. apply Forall_app. split.
    - eapply Forall_impl; [apply fetch_log_quiet|]. cbn. tauto.
    - repeat (apply List.Forall_cons; [easy|]). apply List.Forall_nil. }
  split; [apply lookup_insert_eq|].
  assert (Hold : old <> final_csv_path env).
  { unfold old. rewrite <- (old_csv_path env). apply old_csv_not_csv. }
  split; [rewrite lookup_insert_ne by exact Hold; apply lookup_delete_eq|].
  intros members Hmembers.
  rewrite pipeline_front, Hfront.
  match goal with |- context [rebuild env csv_pin ?w] => set (w1 := w) end.
  assert (Hdl : fs w1 !! download_path env = Some archive).
  { subst w1. cbn [fs].
    rewrite lookup_insert_ne
      by (unfold old; rewrite <- (old_csv_path env); apply old_csv_not_download).
    rewrite lookup_delete_ne by (apply not_eq_sym, download_not_csv).
    apply lookup_insert_eq. }
  destruct (rebuild_runs_loops env csv_pin w1 archive members Hdl Hmembers)
    as (evs & w2 & counts & _ & _ & Hs & Hreb).
  cbn zeta in Hs.
  destruct (report_and_describe env csv_pin counts w2) as [out w3] eqn:Hrep.
  destruct (report_extends env csv_pin _ _ _ _ Hrep) as [evs' Hlog'].
  exists out, w3, (evs ++ evs'). split; [exact Hreb|]. split.
  - rewrite Hlog', (scraped_log _ _ _ _ _ _ Hs). subst w1.
    cbn [log start app]. rewrite <- !app_assoc. reflexivity.
  - intros Hfree.
    rewrite (report_frame env csv_pin _ _ _ _ old Hrep)
      by (unfold old; rewrite <- (old_csv_path env);
          apply not_eq_sym, meta_not_old_csv).
    rewrite (scraped_frame _ _ _ _ _ _ Hs) by exact Hold. cbn [fs].
    rewrite unpack_frame by exact Hfree. subst w1. cbn [fs].
    apply lookup_insert_eq.
Qed.

Lemma stale_output_is_renamed_witness :
  sha Toy.archive = Toy.archive_pin
  /\ sha Toy.table <> Toy.archive_pin
  /\ exists w1,
       front (Toy.env Toy.mixed) Toy.archive_pin Toy.archive_pin
             (start (Toy.with_table Toy.table)) = (Value tt, w1)
       /\ fs w1 !! "/repo/thermoml_archive.old.csv" = Some Toy.table.
Proof.
  split; [vm_compute; reflexivity|]. split; [vm_compute; discriminate|].
  destruct (stale_output_is_renamed (Toy.env Toy.mixed) Toy.archive_pin
              Toy.archive_pin (Toy.with_table Toy.table) Toy.archive Toy.table)
    as (w1 & Hfront & _ & _ & _ & Hold & _);
    [reflexivity | vm_compute; reflexivity | reflexivity
    | vm_compute; discriminate |].
  exists w1. split; [exact Hfront | exact Hold].
Defined.

(** C7. In every run in which the conversion loops complete and the digest
    recomputed for the output table differs from the pinned final one, the
    only consequence is a warning: the summary line has been printed, the
    script ends normally, the table is left as it is, and the metadata
    descriptor is written. *)
Theorem final_mismatch_only_warns env archive_pin csv_pin files w1 w1' counts w2 table :
  front env archive_pin csv_pin (start files) = (Value tt, w1) ->
  extract_archive env w1 = (Value tt, w1') ->
  scrape_files env w1' = (Value counts, w2) ->
  fs w2 !! final_csv_path env = Some table ->
  sha table <> csv_pin ->
  exists w3,
    pipeline env archive_pin csv_pin (start files) = (Value tt, w3)
    /\ log w3 = log w2 ++ [EvPrint (ingested counts.1 counts.2);
                           EvDigest (final_csv_path env) (sha table);
                           EvWarn (final_csv_warning csv_pin (sha table));
                           EvYamlDump meta_path (make_meta counts.1)]
    /\ fs w3 !! meta_path = Some (yaml_dump env (make_meta counts.1))
    /\ fs w3 !! final_csv_path env = Some table.
Proof.
  intros Hfront Hextract Hloops Hcsv Hne. eexists. split; [|split; [|split]].
  - rewrite pipeline_front, Hfront, rebuild_steps, Hextract, Hloops.
    apply (report_mismatch env csv_pin counts w2 table Hcsv Hne).
  - reflexivity.
  - cbn [fs]. apply lookup_insert_eq.
  - cbn [fs]. rewrite lookup_insert_ne by apply meta_not_csv. exact Hcsv.
Qed.

Lemma final_mismatch_only_warns_witness :
  exists w3,
    pipeline (Toy.env Toy.mixed) Toy.archive_pin Toy.table_pin (start ∅)
    = (Value tt, w3)
    /\ fs w3 !! meta_path = Some (bytes_of_string "2").
Proof.
  pose (env := Toy.env Toy.mixed).
  pose (w1 := (front env Toy.archive_pin Toy.table_pin (start ∅)).2).
  pose (w1' := (extract_archive env w1).2).
  pose (w2 := (scrape_files env w1').2).
  destruct (final_mismatch_only_warns env Toy.archive_pin Toy.table_pin ∅
              w1 w1' (2, 1) w2 (bytes_of_string "rr"))
    as (w3 & Hrun & _ & Hmeta & _);
    [vm_compute; reflexivity | vm_compute; reflexivity
    | vm_compute; reflexivity | vm_compute; reflexivity
    | vm_compute; discriminate |].
  exists w3. split; [exact Hrun | exact Hmeta].
Defined.

(** C10. In every run, the question whether the output table exists is
    asked only after the archive digest has been found equal to the pinned
    constant, and, when the archive was absent, after it has been
    downloaded; this holds whatever the output table is.  An archive whose
    digest differs makes the run stop with the fatal error without that
    question ever being asked. *)
Theorem archive_check_precedes_output_check env archive_pin csv_pin files :
  let result := pipeline env archive_pin csv_pin (start files) in
  (forall before answer after,
      log result.2 = before ++ EvExists (final_csv_path env) answer :: after ->
      In (EvDigest (download_path env) archive_pin) before
      /\ (files !! download_path env = None ->
          exists response, In (EvGet remote_data_path response) before))
  /\ (forall archive,
        local_archive env files = Some archive ->
        sha archive <> archive_pin ->
        result.1 = Raised (RuntimeError (checksum_error archive_pin (sha archive)))
        /\ Forall (fun e => asks_exists (final_csv_path env) e = false)
                  (log result.2)).
Proof.
  cbn zeta. split.
  - intros before answer after Hlog.
    assert (Hask : asks_exists (final_csv_path env)
                     (EvExists (final_csv_path env) answer) = true)
      by apply String.eqb_refl.
    assert (Hdl : String.eqb (download_path env) (final_csv_path env) = false)
      by apply String.eqb_neq, download_not_csv.
    rewrite pipeline_front in Hlog.
    destruct (local_archive env files) as [archive|] eqn:Ha.
    2:{ rewrite (front_unreachable env archive_pin csv_pin (start files) Ha)
          in Hlog. cbn [snd log start app] in Hlog.
        pose proof (download_not_csv env) as Hne.
        destruct before as [|b before]; cbn in Hlog.
        - congruence.
        - injection Hlog as _ E. destruct before; discriminate. }
    destruct (String.eqb_spec (sha archive) archive_pin) as [Hpin|Hpin].
    2:{ rewrite (front_mismatch env archive_pin csv_pin (start files) archive
                   Ha Hpin) in Hlog. cbn [snd log start app] in Hlog.
        rewrite <- (app_nil_r (_ ++ [EvDigest _ _])) in Hlog.
        pose proof Hlog as Hlen.
        apply (split_after_quiet (asks_exists (final_csv_path env))) in Hlog
          as [mid Hmid]; [|apply Forall_app; split|exact Hask].
        - apply (f_equal (@length Event)) in Hlen.
          exfalso. revert Hlen. subst before.
          rewrite app_nil_r, !length_app. cbn [length]. lia.
        - eapply Forall_impl; [apply fetch_log_quiet|]. cbn. tauto.
        - apply List.Forall_cons; [reflexivity | apply List.Forall_nil]. }
    assert (Hprefix : exists rest,
               log (match front env archive_pin csv_pin (start files) with
                    | (Value _, w') => rebuild env csv_pin w'
                    | (Returned, w') => (Returned, w')
                    | (Raised e, w') => (Raised e, w')
                    | (OutOfFuel, w') => (OutOfFuel, w')
                    end).2
               = (fetch_log env files archive
                  ++ [EvDigest (download_path env) archive_pin]) ++ rest).
    { destruct (files !! final_csv_path env) as [table|] eqn:Hcsv.
      - destruct (String.eqb_spec (sha table) csv_pin) as [Ht|Ht].
        + rewrite (front_correct env archive_pin csv_pin (start files)
                     archive table Ha Hpin Hcsv Ht).
          cbn [snd log start app]. eexists. now rewrite <- app_assoc.
        + rewrite (front_stale env archive_pin csv_pin (start files)
                     archive table Ha Hpin Hcsv Ht).
          match goal with |- context [rebuild env csv_pin ?w] =>
            destruct (rebuild env csv_pin w) as [o w'] eqn:Hreb end.
          apply rebuild_extends in Hreb as [evs Hevs].
          cbn [snd]. rewrite Hevs. cbn [log start app].
          eexists. now rewrite <- !app_assoc.
      - rewrite (front_fresh env archive_pin csv_pin (start files)
                   archive Ha Hpin Hcsv).
        match goal with |- context [rebuild env csv_pin ?w] =>
          destruct (rebuild env csv_pin w) as [o w'] eqn:Hreb end.
        apply rebuild_extends in Hreb as [evs Hevs].
        cbn [snd]. rewrite Hevs. cbn [log start app].
        eexists. now rewrite <- !app_assoc. }
    destruct Hprefix as [rest Hrest]. rewrite Hrest in Hlog.
    apply (split_after_quiet (asks_exists (final_csv_path env))) in Hlog
      as [mid ->]; [| |exact Hask].
    + split.
      * apply in_or_app. left. apply in_or_app. right. now left.
      * intros Habsent. exists (requests.respond archive false).
        apply in_or_app. left. apply in_or_app. left.
        unfold fetch_log. rewrite Habsent. right. now left.
    + apply Forall_app. split.
      * eapply Forall_impl; [apply fetch_log_quiet|]. cbn. tauto.
      * apply List.Forall_cons; [reflexivity | apply List.Forall_nil].
  - intros archive Ha Hne.
    rewrite pipeline_front.
    rewrite (front_mismatch env archive_pin csv_pin (start files) archive Ha Hne).
    cbn [fst snd log start app]. split; [reflexivity|].
    apply Forall_app. split.
    + eapply Forall_impl; [apply fetch_log_quiet|]. cbn. tauto.
    + apply List.Forall_cons; [reflexivity | apply List.Forall_nil].
Qed.

Lemma archive_check_precedes_output_check_witness :
  exists before after,
    log (pipeline (Toy.env Toy.mixed) Toy.archive_pin Toy.table_pin (start ∅)).2
    = before ++ EvExists "/repo/thermoml_archive.csv" false :: after
    /\ In (EvDigest "/repo/ThermoML.v2020-09-30.tgz" Toy.archive_pin) before.
Proof.
  pose (l := log (pipeline (Toy.env Toy.mixed) Toy.archive_pin Toy.table_pin
                           (start ∅)).2).
  exists (firstn 5 l), (skipn 6 l).
  assert (E : l = firstn 5 l ++ EvExists "/repo/thermoml_archive.csv" false
                                :: skipn 6 l) by (vm_compute; reflexivity).
  split; [exact E|].
  exact (proj1 (proj1 (archive_check_precedes_output_check
                         (Toy.env Toy.mixed) Toy.archive_pin Toy.table_pin ∅)
                      _ _ _ E)).
Defined.

(** C4, at a batch in which every record file fails.  The archive passes
    its check, there is no output table, the archive unpacks two record
    files and the parser raises on both: the counters come out as 0 and 2
    and the summary line is printed, but the script then stops with
    [FileNotFoundError] on the table that no successful file has created,
    and no metadata is written.  The run is evaluated on the test archive,
    with its digest as the pinned one; the same happens for every archive
    and every pair of pinned digests, as a later theorem shows. *)
Theorem all_failures_stop_before_metadata :
  let result := pipeline (Toy.env Toy.all_bad) Toy.archive_pin Toy.table_pin
                         (start ∅) in
  result.1 = Raised (FileNotFoundError "/repo/thermoml_archive.csv")
  /\ List.filter parse_failed (log result.2)
     = [EvParseFailed "/repo/10.1007/a.xml"; EvParseFailed "/repo/10.1016/b.xml"]
  /\ successes (log result.2) = 0
  /\ last (log result.2) = Some (EvPrint "Ingested 0 with 2 failures.")
  /\ List.filter is_yaml_dump (log result.2) = nil
  /\ fs result.2 !! meta_path = None.
Proof. vm_compute. repeat split. Qed.

(** C6, at a run whose loops complete without a single success.  The loops
    run to their end (the summary line is printed), yet the metadata
    document is not written: the [meta.yaml] of an earlier run is still
    there, unchanged, when the script stops with [FileNotFoundError].  When
    the table exists after the loops the document is written, with the
    success counter as its record count. *)
Theorem completed_loops_without_metadata :
  let result := pipeline (Toy.env Toy.all_bad) Toy.archive_pin Toy.table_pin
                         (start (Toy.with_meta (bytes_of_string "7"))) in
  result.1 = Raised (FileNotFoundError "/repo/thermoml_archive.csv")
  /\ In (EvPrint "Ingested 0 with 2 failures.") (log result.2)
  /\ List.filter is_yaml_dump (log result.2) = nil
  /\ fs result.2 !! meta_path = Some (bytes_of_string "7").
Proof.
  vm_compute. split; [reflexivity|]. split; [|split; reflexivity].
  do 9 right. now left.
Qed.

(** C8, at a download of 10000 bytes.  The archive is absent, so the body
    is requested, and it reaches the file in chunks of at most 8192 bytes;
    but the response object that [requests.get] returned already holds all
    10000 bytes before the first chunk is written, because [stream] was left
    at [False].  That the request is made only for an absent archive, and
    that the file is written chunk by chunk, holds in general. *)
Theorem download_holds_whole_body :
  let result := get_raw_data Toy.big_env (start ∅) in
  exists response chunks,
    log result.2
    = [EvExists "/repo/ThermoML.v2020-09-30.tgz" false;
       EvGet remote_data_path response;
       EvCreate "/repo/ThermoML.v2020-09-30.tgz"]
      ++ map (EvWrite "/repo/ThermoML.v2020-09-30.tgz") chunks
    /\ requests.content_consumed response = true
    /\ Z.of_nat (requests.buffered response) = 10000%Z
    /\ map (fun chunk => Z.of_nat (length chunk)) chunks = [8192%Z; 1808%Z]
    /\ fs result.2 !! "/repo/ThermoML.v2020-09-30.tgz" = Some Toy.big_body.
Proof.
  cbn zeta.
  rewrite (get_raw_data_absent Toy.big_env (start ∅) Toy.big_body)
    by reflexivity.
  eexists. eexists. cbn [snd log fs start app]. split; [reflexivity|].
  split; [reflexivity|]. split; [vm_compute; reflexivity|].
  split; [vm_compute; reflexivity|]. apply lookup_insert_eq.
Qed.

End Claims.

(** * Further properties of the checksum helper *)

Section ReaderExtras.
Import hashlib hashlib_facts.

Lemma digest_loop_keeps_stream fuel sha fp sha' fp' :
  digest_loop fuel sha fp = Some (sha', fp') -> stream fp' = stream fp.
Proof.
  revert sha fp. induction fuel as [|fuel IH]; intros sha fp; [discriminate|].
  cbn [digest_loop].
  destruct (read chunk_size fp) as [got fp1] eqn:Hread.
  assert (Hs : stream fp1 = stream fp)
    by (unfold read in Hread; now injection Hread as _ <-).
  destruct got as [|b got].
  - intros [= _ <-]. exact Hs.
  - intros H. apply IH in H. congruence.
Qed.

(** The loop reaches the sentinel exactly when the fuel allows one call to
    [read] per chunk and one more. *)
Lemma digest_loop_needs fuel sha fp :
  is_Some (digest_loop fuel sha fp)
  <-> 0 < fuel /\ length (unread fp) <= (fuel - 1) * chunk_size.
Proof.
  revert sha fp. induction fuel as [|fuel IH]; intros sha fp.
  - cbn [digest_loop]. split; [intros [? ?]; discriminate | lia].
  - cbn [digest_loop].
    destruct (read_chunk chunk_size fp) as [Hgot Hrest].
    pose proof (read_empty_iff fp) as Hempty.
    destruct (read chunk_size fp) as [got fp']. cbn [fst snd] in *.
    replace (S fuel - 1) with fuel by lia.
    destruct got as [|b got].
    + rewrite (proj1 Hempty eq_refl). cbn [length]. split; [lia | eauto].
    + rewrite IH, Hrest, length_skipn.
      assert (Hlen : 0 < length (unread fp)).
      { destruct (unread fp); [|cbn [length]; lia].
        exfalso. destruct Hempty as [_ H]. now specialize (H eq_refl). }
      pose proof chunk_size_pos as Hpos. revert Hlen Hpos.
      generalize (length (unread fp)) chunk_size. intros len n Hlen Hpos.
      destruct fuel as [|fuel]; [lia|].
      replace (S fuel - 1) with fuel by lia. cbn [Nat.mul]. lia.
Qed.

(** X1. The helper hashes what is still unread on the handle, not the whole
    file, and leaves the handle at its end: a second call on the same handle
    returns the digest of the empty input. *)
Theorem digest_exhausts_handle (fp : BinaryIO) :
  exists sha fp',
    digest_loop (S (length (unread fp))) sha256 fp = Some (sha, fp')
    /\ _sha256_chunked_file_digest fp = Some (hexdigest sha)
    /\ hexdigest sha = sha256_oneshot (unread fp)
    /\ stream fp' = stream fp
    /\ unread fp' = nil
    /\ _sha256_chunked_file_digest fp' = Some (sha256_oneshot nil).
Proof.
  destruct (digest_loop_fed (S (length (unread fp))) fp nil)
    as (fp' & Hloop & Hend); [lia|].
  rewrite fed_nil, app_nil_l in Hloop.
  exists (fed (unread fp)), fp'. split; [exact Hloop|].
  split; [unfold _sha256_chunked_file_digest; now rewrite Hloop|].
  split; [apply hexdigest_fed|].
  split; [exact (digest_loop_keeps_stream _ _ _ _ _ Hloop)|].
  split; [exact Hend|].
  now rewrite chunked_digest_unread, Hend.
Qed.

(** X2. On a handle with [n] unread bytes the loop stops after exactly
    [ceil(n / 8192) + 1] calls to [read]: with that many it returns, with
    fewer it has not yet seen the empty chunk. *)
Theorem digest_loop_read_count fuel sha fp :
  is_Some (digest_loop fuel sha fp)
  <-> ((Z.of_nat (length (unread fp)) + 8191) / 8192 + 1 <= Z.of_nat fuel)%Z.
Proof.
  rewrite digest_loop_needs. unfold chunk_size.
  generalize (length (unread fp)). intros n.
  assert (Hz : forall f, n <= f * Z.to_nat 8192
                         <-> (Z.of_nat n <= Z.of_nat f * 8192)%Z).
  { intros f. rewrite Nat2Z.inj_le, Nat2Z.inj_mul, Z2Nat.id by lia.
    reflexivity. }
  rewrite Hz. clear Hz.
  destruct fuel as [|fuel].
  - split; [lia|]. pose proof (Z.div_pos (Z.of_nat n + 8191) 8192)%Z. lia.
  - replace (S fuel - 1) with fuel by lia.
    pose proof (Z.div_mod (Z.of_nat n + 8191) 8192)%Z.
    pose proof (Z.mod_pos_bound (Z.of_nat n + 8191) 8192)%Z. lia.
Qed.

(** X3. The digest does not depend on where the stream is cut: feeding the
    hash object any sequence of chunks, empty ones included, gives the
    single-shot digest of their concatenation. *)
Theorem digest_ignores_chunk_boundaries (chunks : list (list byte)) :
  hexdigest (fold_left update chunks sha256) = sha256_oneshot (concat chunks)
  /\ forall other,
       concat other = concat chunks ->
       hexdigest (fold_left update other sha256)
       = hexdigest (fold_left update chunks sha256).
Proof.
  assert (H : forall cs, hexdigest (fold_left update cs sha256)
                         = sha256_oneshot (concat cs)).
  { intros cs. rewrite <- fed_nil, update_chunks, app_nil_l.
    apply hexdigest_fed. }
  split; [apply H|]. intros other E. now rewrite !H, E.
Qed.

End ReaderExtras.

(** * Further properties of the script *)

Section ScriptExtras.

Variable env : Collaborators.
Variables archive_pin csv_pin : string.

Local Abbreviation dl := (download_path env).
Local Abbreviation csv := (final_csv_path env).
Local Abbreviation old_csv := (with_suffix (final_csv_path env) ".old.csv").
Local Abbreviation sha := hashlib.sha256_oneshot.
Local Abbreviation run := (pipeline env archive_pin csv_pin).

(** What is known when the front part falls through to the extraction. *)
Lemma front_value w w1 :
  front env archive_pin csv_pin w = (Value tt, w1) ->
  exists archive,
    local_archive env (fs w) = Some archive
    /\ sha archive = archive_pin
    /\ fs w1 !! dl = Some archive
    /\ fs w1 !! csv = None.
Proof.
  intros H. destruct (local_archive env (fs w)) as [a|] eqn:Ha.
  2:{ rewrite (front_unreachable env archive_pin csv_pin w Ha) in H.
      discriminate. }
  destruct (String.eqb_spec (sha a) archive_pin) as [Hp|Hp].
  2:{ rewrite (front_mismatch env archive_pin csv_pin w a Ha Hp) in H.
      discriminate. }
  exists a. split; [reflexivity|]. split; [exact Hp|].
  destruct (fs w !! csv) as [t|] eqn:Hc.
  - destruct (String.eqb_spec (sha t) csv_pin) as [Ht|Ht].
    + rewrite (front_correct env archive_pin csv_pin w a t Ha Hp Hc Ht) in H.
      discriminate.
    + rewrite (front_stale env archive_pin csv_pin w a t Ha Hp Hc Ht) in H.
      injection H as <-. cbn [fs]. split.
      * rewrite lookup_insert_ne by apply old_csv_not_download.
        rewrite lookup_delete_ne by apply not_eq_sym, download_not_csv.
        apply lookup_insert_eq.
      * rewrite lookup_insert_ne by apply old_csv_not_csv.
        apply lookup_delete_eq.
  - rewrite (front_fresh env archive_pin csv_pin w a Ha Hp Hc) in H.
    injection H as <-. cbn [fs]. split; [apply lookup_insert_eq|].
    now rewrite lookup_csv_after_fetch.
Qed.

(** How the front part can end. *)
Lemma front_outcomes w :
  let out := (front env archive_pin csv_pin w).1 in
  out = Value tt \/ out = Returned
  \/ out = Raised (ConnectionError remote_data_path)
  \/ exists received, out = Raised (RuntimeError (checksum_error archive_pin received)).
Proof.
  cbn zeta. destruct (local_archive env (fs w)) as [a|] eqn:Ha.
  2:{ rewrite (front_unreachable env archive_pin csv_pin w Ha). auto. }
  destruct (String.eqb_spec (sha a) archive_pin) as [Hp|Hp].
  2:{ rewrite (front_mismatch env archive_pin csv_pin w a Ha Hp). eauto 6. }
  destruct (fs w !! csv) as [t|] eqn:Hc.
  - destruct (String.eqb_spec (sha t) csv_pin) as [Ht|Ht].
    + rewrite (front_correct env archive_pin csv_pin w a t Ha Hp Hc Ht). auto.
    + rewrite (front_stale env archive_pin csv_pin w a t Ha Hp Hc Ht). auto.
  - rewrite (front_fresh env archive_pin csv_pin w a Ha Hp Hc). auto.
Qed.

(** How the rebuild can end. *)
Lemma rebuild_outcomes w archive :
  fs w !! dl = Some archive ->
  let out := (rebuild env csv_pin w).1 in
  out = Value tt \/ out = Raised (ReadError dl)
  \/ out = Raised (FileNotFoundError csv).
Proof.
  intros H. cbn zeta.
  destruct (tar_members env archive) as [members|] eqn:E.
  2:{ rewrite rebuild_steps, (extract_archive_not_tar env w archive H E). auto. }
  destruct (rebuild_runs_loops env csv_pin w archive members H E)
    as (evs & w2 & counts & _ & _ & _ & ->).
  destruct (fs w2 !! csv) as [table|] eqn:Hc.
  - destruct (String.eqb_spec (sha table) csv_pin) as [Ht|Ht].
    + rewrite (report_match env csv_pin counts w2 table Hc Ht). auto.
    + rewrite (report_mismatch env csv_pin counts w2 table Hc Ht). auto.
  - rewrite (report_missing env csv_pin counts w2 Hc). auto.
Qed.

Lemma strip_prefix_app prefix s rest :
  strip_prefix prefix s = Some rest -> s = prefix +:+ rest.
Proof.
  revert s. induction prefix as [|c prefix IH]; intros s.
  - cbn. now intros [= ->].
  - destruct s as [|d s]; cbn [strip_prefix]; [discriminate|].
    destruct (Ascii.eqb_spec c d) as [->|]; [|discriminate].
    intros H. apply IH in H. subst s. reflexivity.
Qed.

Lemma glob_match_entry dir ext path :
  glob_match dir ext path = true ->
  exists entry, path = dir // entry
                /\ single_component entry = true
                /\ ends_with ext entry = true.
Proof.
  unfold glob_match.
  destruct (strip_prefix (dir +:+ "/") path) as [entry|] eqn:E; [|discriminate].
  intros H. apply andb_true_iff in H as [H1 H2].
  exists entry. split; [|auto].
  apply strip_prefix_app in E. subst path. unfold joinpath.
  apply string_app_assoc.
Qed.

Lemma iter_slices_nonempty bound (s : list byte) n :
  0 < n -> Forall (fun chunk => 0 < length chunk) (requests.iter_slices bound s n).
Proof.
  intros Hn. revert s. induction bound as [|bound IH]; intros s; [constructor|].
  destruct s as [|b s]; [constructor|]. cbn [requests.iter_slices].
  constructor; [|apply IH]. rewrite length_firstn. cbn [length]. lia.
Qed.

End ScriptExtras.

Section FurtherProperties.

Local Abbreviation sha := hashlib.sha256_oneshot.

(** X4. An archive that is already next to the script is never requested
    again and never rewritten by the front part of the script, whatever it
    contains. *)
Theorem existing_archive_is_kept env archive_pin csv_pin files archive :
  files !! download_path env = Some archive ->
  let result := front env archive_pin csv_pin (start files) in
  fs result.2 !! download_path env = Some archive
  /\ Forall (fun e => is_get e = false
                      /\ writes_to (download_path env) e = false)
            (log result.2).
Proof.
  intros Hfile. cbn zeta.
  assert (Ha : local_archive env (fs (start files)) = Some archive)
    by (unfold local_archive; cbn [fs start]; now rewrite Hfile).
  assert (Hlog : fetch_log env files archive = [EvExists (download_path env) true])
    by (unfold fetch_log; now rewrite Hfile).
  assert (Hc : String.eqb (final_csv_path env) (download_path env) = false)
    by (apply String.eqb_neq, not_eq_sym, download_not_csv).
  assert (Ho : String.eqb (with_suffix (final_csv_path env) ".old.csv")
                          (download_path env) = false)
    by (apply String.eqb_neq, old_csv_not_download).
  destruct (String.eqb_spec (sha archive) archive_pin) as [Hp|Hp].
  2:{ rewrite (front_mismatch env archive_pin csv_pin _ archive Ha Hp).
      cbn [snd fs log start app]. rewrite Hlog.
      split; [apply lookup_insert_eq|].
      repeat (apply List.Forall_cons; [now split|]). apply List.Forall_nil. }
  destruct (files !! final_csv_path env) as [t|] eqn:Hcsv.
  - destruct (String.eqb_spec (sha t) csv_pin) as [Ht|Ht].
    + rewrite (front_correct env archive_pin csv_pin _ archive t Ha Hp Hcsv Ht).
      cbn [snd fs log start app]. rewrite Hlog.
      split; [apply lookup_insert_eq|].
      repeat (apply List.Forall_cons; [now split|]). apply List.Forall_nil.
    + rewrite (front_stale env archive_pin csv_pin _ archive t Ha Hp Hcsv Ht).
      cbn [snd fs log start app]. rewrite Hlog. split.
      * rewrite lookup_insert_ne by apply old_csv_not_download.
        rewrite lookup_delete_ne by apply not_eq_sym, download_not_csv.
        apply lookup_insert_eq.
      * repeat (apply List.Forall_cons;
                [split; [reflexivity | cbn; now rewrite ?Hc, ?Ho]|]).
        apply List.Forall_nil.
  - rewrite (front_fresh env archive_pin csv_pin _ archive Ha Hp Hcsv).
    cbn [snd fs log start app]. rewrite Hlog.
    split; [apply lookup_insert_eq|].
    repeat (apply List.Forall_cons; [now split|]). apply List.Forall_nil.
Qed.

Lemma existing_archive_is_kept_witness :
  fs (front (Toy.env Toy.mixed) sha256_checksum final_expected_csv_checksum
            (start (Toy.with_archive Toy.archive))).2
     !! "/repo/ThermoML.v2020-09-30.tgz" = Some Toy.archive.
Proof.
  exact (proj1 (existing_archive_is_kept (Toy.env Toy.mixed) sha256_checksum
                  final_expected_csv_checksum (Toy.with_archive Toy.archive)
                  Toy.archive eq_refl)).
Defined.

(** X5. When the archive is absent and the server answers, the file that is
    created holds exactly the body: it is written by one [write] per chunk,
    the chunks are non-empty, at most 8192 bytes long and concatenate to the
    body, and an empty body gives an empty file without any [write]. *)
Theorem download_writes_the_body env w body :
  fs w !! download_path env = None ->
  http_body env remote_data_path = Some body ->
  exists chunks,
    get_raw_data env w
    = (Value tt,
       {| fs := <[download_path env := body]> (fs w);
          log := log w
                 ++ [EvExists (download_path env) false;
                     EvGet remote_data_path (requests.respond body false);
                     EvCreate (download_path env)]
                 ++ map (EvWrite (download_path env)) chunks |})
    /\ concat chunks = body
    /\ Forall (fun chunk => 0 < length chunk <= chunk_size) chunks
    /\ (body = nil -> chunks = nil).
Proof.
  intros Habsent Hbody.
  exists (requests.iter_slices (length body) body chunk_size).
  split; [now apply get_raw_data_absent|].
  split; [apply iter_slices_concat; [apply chunk_size_pos | lia]|].
  split.
  - pose proof (iter_slices_nonempty (length body) body chunk_size
                  chunk_size_pos) as H1.
    pose proof (iter_slices_bounded (length body) body chunk_size) as H2.
    rewrite List.Forall_forall in *. intros c Hc. split; auto.
  - now intros ->.
Qed.

Lemma download_writes_the_body_witness :
  exists chunks w,
    get_raw_data (Toy.env Toy.mixed) (start ∅) = (Value tt, w)
    /\ concat chunks = Toy.archive
    /\ fs w !! "/repo/ThermoML.v2020-09-30.tgz" = Some Toy.archive.
Proof.
  destruct (download_writes_the_body (Toy.env Toy.mixed) (start ∅) Toy.archive)
    as (chunks & Hrun & Hcat & _); [reflexivity | reflexivity |].
  exists chunks. eexists. split; [exact Hrun|]. split; [exact Hcat|].
  apply lookup_insert_eq.
Defined.

(** X6. When the archive is absent and the request fails, the script stops
    with the error of the request, and the file system is as before: the
    archive file is opened for writing only after the response is there, so
    no empty file is left behind. *)
Theorem failed_request_leaves_no_file env archive_pin csv_pin files :
  files !! download_path env = None ->
  http_body env remote_data_path = None ->
  pipeline env archive_pin csv_pin (start files)
  = (Raised (ConnectionError remote_data_path),
     {| fs := files; log := [EvExists (download_path env) false] |}).
Proof.
  intros Habsent Hbody. rewrite pipeline_front.
  rewrite front_unreachable; [reflexivity|].
  unfold local_archive. cbn [fs start]. now rewrite Habsent.
Qed.

Lemma failed_request_leaves_no_file_witness :
  get_and_transform_data Toy.offline_env (start ∅)
  = (Raised (ConnectionError remote_data_path),
     {| fs := ∅; log := [EvExists "/repo/ThermoML.v2020-09-30.tgz" false] |}).
Proof.
  exact (failed_request_leaves_no_file Toy.offline_env sha256_checksum
           final_expected_csv_checksum ∅ eq_refl eq_refl).
Defined.

(** X7. An archive with another digest than the pinned one stays where it
    is: running the script again on what the failed run left stops with the
    same error, without a new request, and changes nothing. *)
Theorem rerun_after_mismatch_fails_again env archive_pin csv_pin files archive :
  local_archive env files = Some archive ->
  sha archive <> archive_pin ->
  let first := pipeline env archive_pin csv_pin (start files) in
  let second := pipeline env archive_pin csv_pin (start (fs first.2)) in
  second.1 = first.1
  /\ first.1 = Raised (RuntimeError (checksum_error archive_pin (sha archive)))
  /\ fs second.2 = fs first.2
  /\ Forall (fun e => is_get e = false) (log second.2).
Proof.
  intros Ha Hne. cbn zeta.
  rewrite !pipeline_front.
  rewrite (front_mismatch env archive_pin csv_pin (start files) archive Ha Hne).
  cbn [fst snd fs start].
  assert (Ha' : local_archive env
                  (fs (start (<[download_path env := archive]> files)))
                = Some archive).
  { unfold local_archive. cbn [fs start]. now rewrite lookup_insert_eq. }
  rewrite (front_mismatch env archive_pin csv_pin _ archive Ha' Hne).
  cbn [fst snd fs log start app].
  split; [reflexivity|]. split; [reflexivity|].
  split; [apply insert_insert_eq|].
  unfold fetch_log. rewrite lookup_insert_eq.
  repeat (apply List.Forall_cons; [reflexivity|]). apply List.Forall_nil.
Qed.

Lemma rerun_after_mismatch_fails_again_witness :
  (get_and_transform_data (Toy.env Toy.mixed)
     (start (fs (get_and_transform_data (Toy.env Toy.mixed) (start ∅)).2))).1
  = (get_and_transform_data (Toy.env Toy.mixed) (start ∅)).1.
Proof.
  assert (Hne : sha Toy.archive <> sha256_checksum)
    by (vm_compute; discriminate).
  exact (proj1 (rerun_after_mismatch_fails_again (Toy.env Toy.mixed)
                  sha256_checksum final_expected_csv_checksum ∅ Toy.archive
                  eq_refl Hne)).
Defined.

(** X8. The two loops always run to their end, whatever the parser does:
    every record file they visit leaves one event in the log and moves
    exactly one counter, so the two counters add up to the number of files
    visited. *)
Theorem loops_count_every_file env w :
  exists evs w' counts,
    scrape_files env w = (Value counts, w')
    /\ log w' = log w ++ evs
    /\ Forall (fun e => exists path, record_file e = Some path) evs
    /\ counts.1 = successes evs
    /\ counts.2 = failures evs
    /\ counts.1 + counts.2 = length evs.
Proof.
  destruct (scrape_files_spec env w) as (evs & w' & counts & Hrun & Henum & Hs).
  exists evs, w', counts. split; [exact Hrun|].
  split; [apply Hs|]. split.
  { eapply Forall_impl; [exact Henum|]. intros e (p & _ & Hp & _). eauto. }
  pose proof (scraped_points _ _ _ _ _ _ Hs) as Hp.
  pose proof (scraped_failed _ _ _ _ _ _ Hs) as Hf.
  cbn [fst snd] in Hp, Hf. split; [exact Hp|]. split; [exact Hf|].
  rewrite Hp, Hf. apply successes_failures, Hs.
Qed.

(** X9. The loops touch one file only, the output table, and only by
    appending: after them the table is what it was followed by the rows of
    the converted files in the order of the visit; with no converted file
    the table is not even created; every other file is as before. *)
Theorem loops_only_append_to_table env w :
  exists evs w' counts,
    scrape_files env w = (Value counts, w')
    /\ log w' = log w ++ evs
    /\ (forall path, path <> final_csv_path env -> fs w' !! path = fs w !! path)
    /\ fs w' !! final_csv_path env
       = if counts.1 =? 0 then fs w !! final_csv_path env
         else Some (default nil (fs w !! final_csv_path env)
                    ++ flat_map rows_of evs)%list.
Proof.
  destruct (scrape_files_spec env w) as (evs & w' & counts & Hrun & _ & Hs).
  exists evs, w', counts. split; [exact Hrun|].
  split; [apply Hs|]. split; [apply Hs|].
  pose proof (scraped_points _ _ _ _ _ _ Hs) as Hp. cbn [fst] in Hp.
  rewrite Hp. apply Hs.
Qed.

(** X10. Every file the loops hand to the parser lies directly inside one of
    the three DOI directories next to the script and has a name ending in
    [.xml]. *)
Theorem records_come_from_doi_directories env w :
  exists evs,
    log (scrape_files env w).2 = log w ++ evs
    /\ Forall (fun e => exists doi entry,
                   record_file e = Some (here env // doi // entry)
                   /\ In doi ["10.1007"; "10.1016"; "10.1021"]
                   /\ single_component entry = true
                   /\ ends_with ".xml" entry = true) evs.
Proof.
  destruct (scrape_files_spec env w) as (evs & w' & counts & Hrun & Henum & Hs).
  exists evs. rewrite Hrun. split; [apply Hs|].
  eapply Forall_impl; [exact Henum|].
  intros e (path & doi & Hrec & Hdoi & Hmatch).
  apply glob_match_entry in Hmatch as (entry & -> & Hone & Hext).
  exists doi, entry. auto.
Qed.

(** X11. Whenever the script gets as far as the extraction, the archive on
    disk has the pinned digest and there is no output table: a table that
    was there has made the script return or has been renamed. *)
Theorem extraction_starts_clean env archive_pin csv_pin files w1 :
  front env archive_pin csv_pin (start files) = (Value tt, w1) ->
  exists archive,
    fs w1 !! download_path env = Some archive
    /\ sha archive = archive_pin
    /\ fs w1 !! final_csv_path env = None.
Proof.
  intros H. apply front_value in H as (archive & _ & Hp & Hd & Hc).
  exists archive. auto.
Qed.

Lemma extraction_starts_clean_witness :
  exists archive,
    fs (front (Toy.env Toy.mixed) Toy.archive_pin Toy.table_pin
              (start (Toy.with_table (bytes_of_string "stale")))).2
       !! "/repo/ThermoML.v2020-09-30.tgz" = Some archive
    /\ sha archive = Toy.archive_pin.
Proof.
  destruct (extraction_starts_clean (Toy.env Toy.mixed) Toy.archive_pin
              Toy.table_pin (Toy.with_table (bytes_of_string "stale"))
              (front (Toy.env Toy.mixed) Toy.archive_pin Toy.table_pin
                     (start (Toy.with_table (bytes_of_string "stale")))).2)
    as (archive & Hd & Hp & _); [vm_compute; reflexivity|].
  exists archive. split; [exact Hd | exact Hp].
Defined.

(** X12. When the output table exists after the loops, the script ends
    normally and [meta.yaml] is replaced by the dump of a descriptor whose
    record count is the number of converted files of this run; the warning
    about the final digest appears exactly when that digest differs from
    the pinned one. *)
Theorem metadata_counts_successes env archive_pin csv_pin files w1 w1' counts w2 table :
  front env archive_pin csv_pin (start files) = (Value tt, w1) ->
  extract_archive env w1 = (Value tt, w1') ->
  scrape_files env w1' = (Value counts, w2) ->
  fs w2 !! final_csv_path env = Some table ->
  exists w3 evs,
    pipeline env archive_pin csv_pin (start files) = (Value tt, w3)
    /\ log w2 = log w1' ++ evs
    /\ num_points (make_meta counts.1) = successes evs
    /\ log w3
       = log w2
         ++ [EvPrint (ingested counts.1 counts.2);
             EvDigest (final_csv_path env) (sha table)]
         ++ (if String.eqb (sha table) csv_pin then nil
             else [EvWarn (final_csv_warning csv_pin (sha table))])
         ++ [EvYamlDump meta_path (make_meta counts.1)]
    /\ fs w3 = <[meta_path := yaml_dump env (make_meta counts.1)]> (fs w2).
Proof.
  intros Hfront Hextract Hloops Hcsv.
  destruct (scrape_files_spec env w1') as (evs & w2' & c' & Hrun & _ & Hs).
  rewrite Hloops in Hrun. injection Hrun as <- <-.
  pose proof (scraped_points _ _ _ _ _ _ Hs) as Hp. cbn [fst] in Hp.
  destruct (String.eqb_spec (sha table) csv_pin) as [Ht|Ht].
  - eexists. exists evs. split; [|split; [apply Hs | split; [exact Hp|]]].
    + rewrite pipeline_front, Hfront, rebuild_steps, Hextract, Hloops.
      apply (report_match env csv_pin counts w2 table Hcsv Ht).
    + cbn [fs log app]. rewrite Ht. split; reflexivity.
  - eexists. exists evs. split; [|split; [apply Hs | split; [exact Hp|]]].
    + rewrite pipeline_front, Hfront, rebuild_steps, Hextract, Hloops.
      apply (report_mismatch env csv_pin counts w2 table Hcsv Ht).
    + cbn [fs log app]. split; reflexivity.
Qed.

Lemma metadata_counts_successes_witness :
  exists w3,
    pipeline (Toy.env Toy.mixed) Toy.archive_pin Toy.table_pin
             (start (Toy.with_meta (bytes_of_string "7"))) = (Value tt, w3)
    /\ fs w3 !! meta_path = Some (bytes_of_string "2").
Proof.
  pose (env := Toy.env Toy.mixed).
  pose (files := Toy.with_meta (bytes_of_string "7")).
  pose (w1 := (front env Toy.archive_pin Toy.table_pin (start files)).2).
  pose (w1' := (extract_archive env w1).2).
  pose (w2 := (scrape_files env w1').2).
  destruct (metadata_counts_successes env Toy.archive_pin Toy.table_pin files
              w1 w1' (2, 1) w2 (bytes_of_string "rr"))
    as (w3 & evs & Hrun & _ & _ & _ & Hfs);
    [vm_compute; reflexivity | vm_compute; reflexivity
    | vm_compute; reflexivity | vm_compute; reflexivity |].
  exists w3. split; [exact Hrun|]. rewrite Hfs. apply lookup_insert_eq.
Defined.

(** X13. When the extraction leaves no output table and no record file is
    converted, the script stops right after the summary line with
    [FileNotFoundError] on the table: nothing is written after the loops,
    so no metadata either. *)
Theorem no_success_means_no_metadata env archive_pin csv_pin files w1 w1' counts w2 :
  front env archive_pin csv_pin (start files) = (Value tt, w1) ->
  extract_archive env w1 = (Value tt, w1') ->
  fs w1' !! final_csv_path env = None ->
  scrape_files env w1' = (Value counts, w2) ->
  counts.1 = 0 ->
  pipeline env archive_pin csv_pin (start files)
  = (Raised (FileNotFoundError (final_csv_path env)),
     {| fs := fs w2; log := log w2 ++ [EvPrint (ingested 0 counts.2)] |})
  /\ fs w2 !! final_csv_path env = None
  /\ fs w2 !! meta_path = fs w1' !! meta_path.
Proof.
  intros Hfront Hextract Hcsv Hloops Hzero.
  destruct (scrape_files_spec env w1') as (evs & w2' & c' & Hrun & _ & Hs).
  rewrite Hloops in Hrun. injection Hrun as <- <-.
  pose proof (scraped_points _ _ _ _ _ _ Hs) as Hp. cbn [fst Nat.add] in Hp.
  assert (Hnone : fs w2 !! final_csv_path env = None).
  { rewrite (scraped_table _ _ _ _ _ _ Hs), <- Hp, Hzero. exact Hcsv. }
  split; [|split; [exact Hnone|]].
  - rewrite pipeline_front, Hfront, rebuild_steps, Hextract, Hloops.
    rewrite (report_missing env csv_pin counts w2 Hnone). now rewrite Hzero.
  - apply (scraped_frame _ _ _ _ _ _ Hs), meta_not_csv.
Qed.

Lemma no_success_means_no_metadata_witness :
  (pipeline (Toy.env Toy.all_bad) Toy.archive_pin Toy.table_pin (start ∅)).1
  = Raised (FileNotFoundError "/repo/thermoml_archive.csv").
Proof.
  pose (env := Toy.env Toy.all_bad).
  pose (w1 := (front env Toy.archive_pin Toy.table_pin (start ∅)).2).
  pose (w1' := (extract_archive env w1).2).
  pose (w2 := (scrape_files env w1').2).
  destruct (no_success_means_no_metadata env Toy.archive_pin Toy.table_pin ∅
              w1 w1' (0, 2) w2) as (Hrun & _);
    [vm_compute; reflexivity | vm_compute; reflexivity
    | vm_compute; reflexivity | vm_compute; reflexivity | reflexivity |].
  exact (f_equal fst Hrun).
Defined.

(** X14. A run of the script ends in one of six ways: it runs to its end, it
    returns early, or it raises the error of the request, the checksum
    error, the error of the tar reader, or [FileNotFoundError] on the output
    table.  In particular an exception of the parser never leaves the
    script, and no record file or archive is ever found missing. *)
Theorem run_outcomes env archive_pin csv_pin files :
  let out := (pipeline env archive_pin csv_pin (start files)).1 in
  out = Value tt
  \/ out = Returned
  \/ out = Raised (ConnectionError remote_data_path)
  \/ (exists received,
        out = Raised (RuntimeError (checksum_error archive_pin received)))
  \/ out = Raised (ReadError (download_path env))
  \/ out = Raised (FileNotFoundError (final_csv_path env)).
Proof.
  cbn zeta. rewrite pipeline_front.
  pose proof (front_outcomes env archive_pin csv_pin (start files)) as Ho.
  cbn zeta in Ho.
  destruct (front env archive_pin csv_pin (start files)) as [o w1] eqn:Hf.
  cbn [fst] in Ho. destruct o as [[]| |e|].
  - apply front_value in Hf as (archive & _ & _ & Hd & _).
    pose proof (rebuild_outcomes env csv_pin w1 archive Hd) as Hr.
    cbn zeta in Hr. destruct Hr as [Hr|[Hr|Hr]]; rewrite Hr; auto 7.
  - auto.
  - cbn [fst]. destruct Ho as [Ho|[Ho|[Ho|Ho]]]; try discriminate; auto 7.
  - destruct Ho as [Ho|[Ho|[Ho|[r Ho]]]]; discriminate.
Qed.

End FurtherProperties.
